(** * slice_manage: the video ingestion pipeline, embedded and verified

    A shallow embedding of the segmenter ([processors/video_slicer.py]),
    the frame sampler and segment analyzer ([processors/video_analyzer.py]),
    the queue-driven pipeline and its file lock ([tasks.py]) and the
    in-process pipeline and batch orchestrator ([main.py]).

    Conventions of the embedding:
    - The Python [float] values of the segmenter (times, durations, frame
      rate) are IEEE 754 binary64 numbers, with the operations of the
      standard library's [SpecFloat]; progress percentages are exact
      rationals [Q]. Python [int] values are [Z], or [nat] where they count
      positions.
    - External collaborators (scene detector, ffmpeg, OpenCV, object store,
      knowledge store, description service, the OS lock table) are oracles
      collected in records; every call the code makes to them is logged as an
      event so that theorems can speak about what the code did.
    - A Python exception is a value of type [exn]; [try/except/finally] are
      written out. *)

From Stdlib Require Import ZArith QArith Qround List Ascii String Bool Lia Lqa.
From Stdlib Require Import DecimalString DecimalNat SpecFloat.
From stdpp Require Import base list strings gmap sorting.
Import ListNotations.

Open Scope string_scope.
Open Scope list_scope.
Open Scope nat_scope.

(** ** Shared helpers *)

(** [str(n)] for a non-negative Python int. *)
Definition show_nat (n : nat) : string :=
  NilEmpty.string_of_uint (Nat.to_uint n).

(** [enumerate(l, start)]. *)
Fixpoint enumerate {A : Type} (start : nat) (l : list A) : list (nat * A) :=
  match l with
  | [] => []
  | x :: rest => (start, x) :: enumerate (S start) rest
  end.

(** [os.path.join] on relative components. *)
Definition path_join (a b : string) : string := a +:+ "/" +:+ b.

(** ** Exceptions and results *)

(** A raised Python exception, by its [str(e)]. *)
Definition exn : Type := string.

Inductive res (A : Type) : Type :=
| Ok (a : A)
| Raise (e : exn).
Arguments Ok {A} a.
Arguments Raise {A} e.

(** ** Python floats *)
Module PyFloat.

(** A Python [float] is an IEEE 754 binary64 number. *)
Definition float : Type := spec_float.
Definition prec : Z := 53.
Definition emax : Z := 1024.

(** The float nearest to an integer, ties to even; an infinity past the
    largest float. *)
Definition of_Z (z : Z) : float := binary_normalize prec emax z 0 false.

(** The float a decimal literal denotes, given as the fraction of two
    integers that are floats themselves: [ratio 1 10] is [0.1]. *)
Definition ratio (num den : Z) : float :=
  SFdiv prec emax (of_Z num) (of_Z den).

Definition is_zero (x : float) : bool :=
  match x with S754_zero _ => true | _ => false end.

Definition is_nan (x : float) : bool :=
  match x with S754_nan => true | _ => false end.

(** A number that is not an infinity. *)
Definition is_finite (x : float) : bool :=
  match x with S754_zero _ | S754_finite _ _ _ => true | _ => false end.

(** An int operand of a float operation is converted first; an int past
    the largest float raises [OverflowError]. *)
Definition of_int (z : Z) : res float :=
  match of_Z z with
  | S754_infinity _ => Raise "int too large to convert to float"
  | x => Ok x
  end.

(** [n / y] for an int [n] and a float [y]: [ZeroDivisionError] on a zero
    of either sign; an overflow of the quotient gives an infinity. *)
Definition int_div (n : Z) (y : float) : res float :=
  match of_int n with
  | Raise e => Raise e
  | Ok x =>
      if is_zero y then Raise "float division by zero"
      else Ok (SFdiv prec emax x y)
  end.

(** [a / b] for two ints: the float nearest to the quotient, ties to even,
    with the sign of the quotient on a zero; [ZeroDivisionError] and
    [OverflowError]. *)
Definition int_true_div (a b : Z) : res float :=
  if (b =? 0)%Z then Raise "division by zero"
  else if (a =? 0)%Z then Ok (S754_zero (b <? 0)%Z)
  else
    let '(mz, ez, lz) := SFdiv_core_binary prec emax (Z.abs a) 0 (Z.abs b) 0 in
    match binary_round_aux prec emax (xorb (a <? 0)%Z (b <? 0)%Z) mz ez lz with
    | S754_infinity _ => Raise "integer division result too large for a float"
    | x => Ok x
    end.

(** [x - y], [x < y] and [x >= y] on floats; a comparison with a NaN is
    false. *)
Definition sub (x y : float) : float := SFsub prec emax x y.
Definition ltb (x y : float) : bool := SFltb x y.
Definition geb (x y : float) : bool := SFleb y x.

End PyFloat.

(** [str(n)] for a Python int. *)
Definition show_Z (z : Z) : string :=
  if (z <? 0)%Z then "-" +:+ show_nat (Z.abs_nat z) else show_nat (Z.to_nat z).

(** A loop whose body appends at most one element to a list: the shape of
    the Python [for ...: if ...: acc.append(...)] loops. *)
Definition append_if {A B : Type} (f : A -> option B) (acc : list B) (x : A) : list B :=
  match f x with
  | Some y => acc ++ [y]
  | None => acc
  end.

(** ** The segmenter: [VideoSlicer._perform_slicing] *)
Module Slicer.

(** A scene as the detector returns it: [(scene[0].get_frames(),
    scene[1].get_frames())]. *)
Definition scene : Type := (Z * Z)%type.

Abbreviation float := PyFloat.float.

Record video_info := {
  frame_count : Z;
  total_duration : float;
  fps : float
}.

(** [config.slice_config]: [min_duration] is read with
    [.get('min_duration', 0.1)], so an absent key is [None]; the configured
    number is taken as the float it compares as. *)
Record slice_config := {
  output_dir : string;
  min_duration : option float
}.

Definition min_duration_or_default (cfg : slice_config) : float :=
  match min_duration cfg with
  | Some d => d
  | None => PyFloat.ratio 1 10
  end.

Record segment := {
  index : nat;
  start_time : float;
  end_time : float;
  duration : float;
  start_frame : Z;
  end_frame : Z;
  output_path : string
}.

(** The ffmpeg command line, as far as it varies. *)
Record ffmpeg_cmd := {
  cmd_input : string;
  cmd_ss : float;
  cmd_t : float;
  cmd_output : string
}.

(** The accumulated [slice_info["segments"]] together with the log of
    ffmpeg invocations (every clip file that was asked for). *)
Record slicing_state := {
  segments : list segment;
  ffmpeg_runs : list ffmpeg_cmd
}.

(** The [slice_info] dict built by [_perform_slicing]. *)
Record slice_info := {
  original_video : string;
  si_total_duration : float;
  total_frames : Z;
  si_fps : float;
  si_segments : list segment
}.

Section PerformSlicing.

Variable cfg : slice_config.
(** [subprocess.run(ffmpeg_cmd, check=True)]: [false] is a non-zero exit
    status, which raises [CalledProcessError]. *)
Variable ffmpeg : ffmpeg_cmd -> bool.
(** [video_path], [Path(video_path).stem] and
    [os.path.basename(os.path.dirname(video_path))]. *)
Variable video_path : string.
Variable video_name : string.
Variable parent_name : string.
Variable info : video_info.

Definition segment_output_path (i : nat) : string :=
  path_join (path_join (output_dir cfg) parent_name)
            (video_name +:+ "_segment_" +:+ show_nat (i + 1) +:+ ".mp4").

(** One iteration of [for i, scene in enumerate(scenes)]. Every exception
    raised in the body is caught by the loop's [except Exception:
    continue], which leaves the state as it is at that point: the
    [ZeroDivisionError] and the [OverflowError] of the two divisions, and
    the [CalledProcessError] of ffmpeg. *)
Definition slice_step (st : slicing_state) (p : nat * scene) : slicing_state :=
  let '(i, (sf, ef)) := p in
  match PyFloat.int_div sf (fps info) with
  | Raise _ => st
  | Ok start =>
      match PyFloat.int_div ef (fps info) with
      | Raise _ => st
      | Ok stop =>
          let dur := PyFloat.sub stop start in
          if PyFloat.ltb dur (min_duration_or_default cfg)
          then st (* too short: continue *)
          else
            let out := segment_output_path i in
            let cmd := {| cmd_input := video_path; cmd_ss := start;
                          cmd_t := dur; cmd_output := out |} in
            let runs := ffmpeg_runs st ++ [cmd] in
            if ffmpeg cmd then
              {| segments := segments st ++
                   [{| index := i + 1; start_time := start; end_time := stop;
                       duration := dur; start_frame := sf; end_frame := ef;
                       output_path := out |}];
                 ffmpeg_runs := runs |}
            else {| segments := segments st; ffmpeg_runs := runs |}
      end
  end.

(** Views of one iteration, used to state what the loop computes: the
    times of a scene, whether the scene gets as far as ffmpeg, the ffmpeg
    command it runs and the segment it appends, if any. *)
Definition scene_times (sc : scene) : res (float * float * float) :=
  match PyFloat.int_div (fst sc) (fps info) with
  | Raise e => Raise e
  | Ok start =>
      match PyFloat.int_div (snd sc) (fps info) with
      | Raise e => Raise e
      | Ok stop => Ok (start, stop, PyFloat.sub stop start)
      end
  end.

Definition scene_duration (sc : scene) : res float :=
  match scene_times sc with
  | Ok (_, _, dur) => Ok dur
  | Raise e => Raise e
  end.

(** The scene's times are computed and its duration is not below the
    minimum. *)
Definition long_enough (sc : scene) : bool :=
  match scene_duration sc with
  | Ok dur => negb (PyFloat.ltb dur (min_duration_or_default cfg))
  | Raise _ => false
  end.

Definition requested_clip (p : nat * scene) : option ffmpeg_cmd :=
  match scene_times (snd p) with
  | Ok (start, _, dur) =>
      if PyFloat.ltb dur (min_duration_or_default cfg) then None
      else Some {| cmd_input := video_path; cmd_ss := start; cmd_t := dur;
                   cmd_output := segment_output_path (fst p) |}
  | Raise _ => None
  end.

Definition kept_segment (p : nat * scene) : option segment :=
  match requested_clip p, scene_times (snd p) with
  | Some cmd, Ok (start, stop, dur) =>
      if ffmpeg cmd then
        Some {| index := fst p + 1;
                start_time := start;
                end_time := stop;
                duration := dur;
                start_frame := fst (snd p);
                end_frame := snd (snd p);
                output_path := segment_output_path (fst p) |}
      else None
  | _, _ => None
  end.

(** The [for] loop of [_perform_slicing]. *)
Definition slicing_loop (scenes : list scene) : slicing_state :=
  fold_left slice_step (enumerate 0 scenes)
            {| segments := []; ffmpeg_runs := [] |}.

(** [VideoSlicer._perform_slicing]: the [slice_info] dict it returns. *)
Definition perform_slicing (scenes : list scene) : slice_info :=
  {| original_video := video_path;
     si_total_duration := total_duration info;
     total_frames := frame_count info;
     si_fps := fps info;
     si_segments := segments (slicing_loop scenes) |}.

End PerformSlicing.

(** The keys of the [slice_info] dict; [len(slice_info)] counts them. *)
Definition slice_info_keys : list string :=
  ["original_video"; "total_duration"; "total_frames"; "fps"; "segments"].

Definition slice_info_len (si : slice_info) : nat := length slice_info_keys.

Record SliceResult := {
  sr_success : bool;
  sr_slice_info : option slice_info;
  sr_message : option string;
  sr_frames_count : Z;
  sr_duration : float
}.

(** The slicer's configuration and collaborators. *)
Record env := {
  config : slice_config;
  path_exists : string -> bool;                 (* [os.path.exists] *)
  probe : string -> res video_info;             (* [_get_video_duration] (ffprobe) *)
  detect : string -> Q -> res (list scene);     (* [scenedetect.detect] *)
  run_ffmpeg : ffmpeg_cmd -> bool;
  path_stem : string -> string;                 (* [Path(p).stem] *)
  path_parent_name : string -> string           (* [basename(dirname(p))] *)
}.

Definition slice_failure (err : exn) : SliceResult :=
  {| sr_success := false; sr_slice_info := None;
     sr_message := Some ("视频分片失败: " +:+ err);
     sr_frames_count := 0; sr_duration := PyFloat.of_Z 0 |}.

(** [VideoSlicer.slice_video]: returns the result and the new value of
    [self.slice_info], which is only assigned when slicing went through. *)
Definition slice_video (e : env) (self_slice_info : option slice_info)
           (video_path : string) (threshold : Q)
  : SliceResult * option slice_info :=
  if negb (path_exists e video_path) then
    (slice_failure ("输入视频文件不存在: " +:+ video_path), self_slice_info)
  else
    match probe e video_path with
    | Raise err => (slice_failure err, self_slice_info)
    | Ok info =>
        match detect e video_path threshold with
        | Raise err =>
            (slice_failure ("场景检测失败: " +:+ err), self_slice_info)
        | Ok scenes =>
            let si := perform_slicing (config e) (run_ffmpeg e) video_path
                        (path_stem e video_path)
                        (path_parent_name e video_path) info scenes in
            ({| sr_success := true; sr_slice_info := Some si;
                sr_message := None;
                sr_frames_count := frame_count info;
                sr_duration := total_duration info |}, Some si)
        end
    end.

(** [VideoSlicer.get_slice_paths]: [self.slice_info.get("segments", [])]
    raises [AttributeError] while [self.slice_info] is [None]. *)
Definition get_slice_paths (self_slice_info : option slice_info)
  : res (list string) :=
  match self_slice_info with
  | None => Raise "'NoneType' object has no attribute 'get'"
  | Some si => Ok (map output_path (si_segments si))
  end.

End Slicer.

(** ** Frame sampler and segment analyzer: [VideoAnalyzer] *)
Module Analyzer.

(** What [cv2.VideoCapture(path)] gives: a capture that did not open
    reports a frame count of 0 and never reads a frame; neither raises. *)
Record capture := {
  is_opened : bool;
  prop_frame_count : Z;
  frame_readable : Z -> bool
}.

Definition cap_frame_count (c : capture) : Z :=
  if is_opened c then prop_frame_count c else 0%Z.

(** [cap.set(CAP_PROP_POS_FRAMES, n); ret, frame = cap.read()]. *)
Definition cap_read (c : capture) (n : Z) : bool :=
  is_opened c && frame_readable c n.

(** [np.linspace(0, stop, num, dtype=int)]: [num] evenly spaced values with
    the end point set to [stop], rounded towards minus infinity. *)
Definition linspace_int (stop num : Z) : res (list Z) :=
  if (num <? 0)%Z then
    Raise ("Number of samples, " +:+ show_Z num +:+ ", must be non-negative.")
  else if (num =? 1)%Z then Ok [0%Z]
  else
    Ok (map (fun i => if (i =? num - 1)%Z then stop
                      else (i * stop / (num - 1))%Z)
            (seqZ 0 num)).

Definition frame_path (temp_dir : string) (idx : nat) : string :=
  path_join temp_dir ("frame_" +:+ show_nat idx +:+ ".jpg").

(** The body of the sampling loop: the frame file written for a sampled
    position, if its read succeeds. *)
Definition sampled_frame (cap : capture) (temp_dir : string) (p : nat * Z)
  : option string :=
  if cap_read cap (snd p) then Some (frame_path temp_dir (fst p)) else None.

(** [VideoAnalyzer._extract_frames]: the [except] clause logs and
    re-raises. *)
Definition extract_frames (cap : capture) (temp_dir : string) (num_frames : Z)
  : res (list string) :=
  let total_frames := cap_frame_count cap in
  match linspace_int (total_frames - 1) num_frames with
  | Raise e => Raise e
  | Ok frame_indices =>
      Ok (fold_left (append_if (sampled_frame cap temp_dir))
                    (enumerate 0 frame_indices) [])
  end.

(** The response of [client.chat.completions.create], as far as the
    analyzer looks at it. A choice is its message's content: [None] when
    the message is absent or empty. *)
Inductive usage_attr :=
| UsageAbsent              (* no [usage] attribute *)
| UsageNone                (* [usage] is [None] *)
| UsageTokens (n : Z).

Record response := {
  choices : list (option string);
  usage : usage_attr
}.

Inductive api_outcome :=
| ApiRaises (e : exn)
| ApiReturns (r : option response).

Record request := {
  req_model : string;
  req_prompt : string;
  req_images : list string
}.

Inductive aevent :=
| ARequest (attempt : nat) (rq : request)
| ASleep (seconds : Z).

Record analysis_info_t := {
  ai_video_path : string;
  analysis_result : string;
  ai_token_usage : Z
}.

Record AnalysisResult := {
  success : bool;
  analysis_info : option analysis_info_t;
  message : option string;
  frames : option (list string);
  audio_path : option string;
  token_usage : Z
}.

(** The analyzer's configuration and its collaborators. *)
Record env := {
  frames_per_slice : option Z;          (* [config.get('frames_per_slice', 2)] *)
  model_name : string;
  open_capture : string -> capture;     (* [cv2.VideoCapture] *)
  mkdtemp : string -> string;           (* scratch directory made for a clip *)
  read_b64 : string -> res string;      (* base64 of a frame file, or the open/read error *)
  chat_create : request -> nat -> api_outcome
    (* the description service: outcome of the request at a given
       [retry_count] *)
}.

Definition default_dimensions : string :=
  "1. **人物动作**：开车、下车、上车、行走、开车门、敲车门、说话等等。
" +:+
  "2. **内容主体**：如车头特写、车尾特写、侧面特写、轮胎特写、车灯特写、内饰特写等。
" +:+
  "3. **主体状态描述**：如加速、刹车、转弯、漂移、越野、稳定巡航、疾驰而过等。
" +:+
  "4. **相机视角**：俯视视角、仰视视角、平视视角、鸟瞰视角等。
" +:+
  "5. **地点**：城市街道、高速公路、乡村道路、海滨公路等。
" +:+
  "6. **时间**：清晨、上午、中午、下午、黄昏、夜晚。
" +:+
  "7. **品牌**：".

(** [VideoAnalyzer._build_prompt]; the title is not used by the source. *)
Definition build_prompt (title prev_analysis_result : string)
           (custom_analysis_dimensions : option string) : string :=
  let analysis_dimensions :=
    match custom_analysis_dimensions with
    | Some d => if String.eqb d "" then default_dimensions else d
    | None => default_dimensions
    end in
  "### 汽车推广短视频片段解析提示词
" +:+
  "视频解析的目的是从多个角度拆解内容，为剪辑师提供有价值的素材片段信息，" +:+
  "同时视频的标题作为全视频内容的概览提供了重要的参考价值。如果视频标题没有意义，请忽略
" +:+
  "**为了保证解析出的内容连贯，我会提供上一个片段的解析信息：'" +:+
  prev_analysis_result +:+ "'。" +:+
  "如果没有提供上一个片段的内容，则说明这是第一个片段。**
" +:+
  "**请根据以下角度解析视频内容：**
" +:+
  analysis_dimensions +:+ "
" +:+
  "输出时请输出一段画面描述和一个表格，其中画面描述包含以上解析维度，" +:+
  "如果没有车，品牌车型直接输出为无！！！
" +:+
  "请严格按照示例表格输出解析结果，一条视频只有一个镜头，禁止输出多个镜头。如果视频中没有相关信息，直接输出无
" +:+
  "请将音频时长作为镜头时长，如果音频时长为0，请输出2秒
".

Definition max_retries : nat := 3.

(** The validity test on a response: every falsy link of
    [response.choices[0].message.content] raises [ValueError]. *)
Definition response_content (r : option response) : res string :=
  match r with
  | Some {| choices := Some c :: _ |} =>
      if String.eqb c "" then Raise "API返回无效响应" else Ok c
  | _ => Raise "API返回无效响应"
  end.

(** [response.usage.total_tokens if hasattr(response, 'usage') else 0]. *)
Definition response_tokens (r : option response) : res Z :=
  match r with
  | Some {| usage := UsageTokens n |} => Ok n
  | Some {| usage := UsageNone |} =>
      Raise "'NoneType' object has no attribute 'total_tokens'"
  | _ => Ok 0%Z
  end.

(** One pass through the body of the [try] inside the retry loop. *)
Definition attempt (e : env) (rq : request) (retry_count : nat)
  : res (string * Z) :=
  match chat_create e rq retry_count with
  | ApiRaises err => Raise err
  | ApiReturns r =>
      match response_content r with
      | Raise err => Raise err
      | Ok result_content =>
          match response_tokens r with
          | Raise err => Raise err
          | Ok tokens => Ok (result_content, tokens)
          end
      end
  end.

Definition str_of_error (last_error : option exn) : string :=
  match last_error with
  | Some err => err
  | None => "None"
  end.

(** [while retry_count < max_retries]. The first argument counts the
    iterations that remain, [max_retries - retry_count]: every iteration
    either returns or adds one to [retry_count], so it is 0 exactly when
    the loop condition is false. *)
Fixpoint api_loop (e : env) (video_path : string) (frames : list string)
         (rq : request) (remaining retry_count : nat)
         (last_error : option exn) (log : list aevent)
  : AnalysisResult * list aevent :=
  match remaining with
  | O =>
      ({| success := false;
          analysis_info := None;
          message := Some ("没有返回有效解析结果。[错误原因：" +:+
                           str_of_error last_error +:+ "]");
          frames := Some frames;
          audio_path := Some "";
          token_usage := 0 |}, log)
  | S remaining' =>
      let log1 := log ++ [ARequest retry_count rq] in
      match attempt e rq retry_count with
      | Ok (result_content, tokens) =>
          ({| success := true;
              analysis_info :=
                Some {| ai_video_path := video_path;
                        analysis_result := result_content;
                        ai_token_usage := tokens |};
              message := Some "分析完成";
              frames := Some frames;
              audio_path := Some "";
              token_usage := 0 |}, log1)
      | Raise err =>
          let retry_count' := S retry_count in
          let log2 :=
            if (retry_count' <? max_retries)%nat
            then log1 ++ [ASleep (2 ^ Z.of_nat retry_count')]
            else log1 in
          api_loop e video_path frames rq remaining' retry_count'
                   (Some err) log2
      end
  end.

(** Reading and encoding the sampled frames; the first failure raises. *)
Fixpoint encode_frames (e : env) (frames : list string) : res (list string) :=
  match frames with
  | [] => Ok []
  | f :: rest =>
      match read_b64 e f with
      | Raise err => Raise err
      | Ok data =>
          match encode_frames e rest with
          | Raise err => Raise err
          | Ok urls => Ok (("data:image/jpeg;base64," +:+ data) :: urls)
          end
      end
  end.

(** The result built by the outermost [except]. *)
Definition analysis_error (err : exn) : AnalysisResult :=
  {| success := false;
     analysis_info := None;
     message := Some ("视频分析失败: " +:+ err);
     frames := None;
     audio_path := None;
     token_usage := 0 |}.

Definition frames_count (e : env) : Z :=
  match frames_per_slice e with
  | Some n => n
  | None => 2%Z
  end.

(** The request sent once the frames are encoded. *)
Definition request_of (e : env) (title prev_analysis_result : string)
           (custom_analysis_dimensions : option string) (urls : list string)
  : request :=
  {| req_model := model_name e;
     req_prompt := build_prompt title prev_analysis_result
                                custom_analysis_dimensions;
     req_images := urls |}.

(** [VideoAnalyzer.analyze_video_slice]. *)
Definition analyze_video_slice (e : env) (video_path title : string)
           (prev_analysis_result : string)
           (custom_analysis_dimensions : option string)
  : AnalysisResult * list aevent :=
  match extract_frames (open_capture e video_path) (mkdtemp e video_path)
                       (frames_count e) with
  | Raise err => (analysis_error err, [])
  | Ok frames =>
      match encode_frames e frames with
      | Raise err => (analysis_error err, [])
      | Ok urls =>
          api_loop e video_path frames
                   (request_of e title prev_analysis_result
                               custom_analysis_dimensions urls)
                   max_retries 0 None []
      end
  end.

(** The attempts made and the waits slept, read off an analyzer log. *)
Definition requests (log : list aevent) : list nat :=
  omap (fun ev => match ev with ARequest n _ => Some n | ASleep _ => None end) log.

Definition sleeps (log : list aevent) : list Z :=
  omap (fun ev => match ev with ASleep s => Some s | ARequest _ _ => None end) log.

End Analyzer.

(** ** The resource lock: [VideoProcessorTask.acquire_file_lock] *)
Module FileLock.

Definition EAGAIN : Z := 11.
Definition EACCES : Z := 13.

(** What an OS call can raise: an [IOError] with its [errno], or any other
    exception. *)
Inductive fault :=
| IOError (errno : Z)
| OtherException (msg : string).

(** The open lock file object returned to the caller. *)
Record lock_file := {
  lf_path : string;
  lf_owner : nat
}.

(** Faults of the calls on a lock file path, apart from contention. *)
Record os_faults := {
  open_fault : string -> option fault;     (* [open(path, 'w')] *)
  flock_fault : string -> option fault;    (* [fcntl.flock], other than a held lock *)
  write_fault : string -> option fault     (* [f.write] / [f.flush] *)
}.

(** The kernel's table of exclusive [flock] locks: path to holder. It is
    visible to every worker process. *)
Abbreviation lock_table := (gmap string nat).

(** The two [except] clauses of [acquire_file_lock]. *)
Definition on_fault (f : fault) : bool * option lock_file :=
  match f with
  | IOError errno =>
      if (errno =? EACCES)%Z || (errno =? EAGAIN)%Z
      then (false, None)
      else (true, None)
  | OtherException _ => (true, None)
  end.

Definition lock_file_path (lock_dir lock_name : string) : string :=
  path_join lock_dir (lock_name +:+ ".lock").

(** [acquire_file_lock], run by holder [me]. [flock] is called with
    [LOCK_EX | LOCK_NB]: on a path whose lock is held it raises at once
    with [EAGAIN]. Closing the file in an [except] clause gives up a lock
    that was already taken. What the call does to the contents of the lock
    file is [lock_file_text], below. *)
Definition acquire_file_lock (os : os_faults) (me : nat)
           (lock_dir lock_name : string) (tbl : lock_table)
  : (bool * option lock_file) * lock_table :=
  let path := lock_file_path lock_dir lock_name in
  match open_fault os path with
  | Some f => (on_fault f, tbl)
  | None =>
      match tbl !! path with
      | Some _ => (on_fault (IOError EAGAIN), tbl)
      | None =>
          match flock_fault os path with
          | Some f => (on_fault f, tbl)
          | None =>
              let tbl' := <[path := me]> tbl in
              match write_fault os path with
              | Some f => (on_fault f, delete path tbl')
              | None => ((true, Some {| lf_path := path; lf_owner := me |}), tbl')
              end
          end
      end
  end.

(** What an attempt leaves in the lock file, given what the file held
    ([None]: no file). [open(path, 'w')] empties the file as soon as it
    succeeds, before [flock] is tried; the PID is written once the lock is
    taken. [pid] is [str(os.getpid())]; when writing raises, [close_flushes]
    says whether the [close] of the [except] clause got the buffered PID
    out. *)
Definition lock_file_text (os : os_faults) (pid : string) (close_flushes : bool)
           (lock_dir lock_name : string) (tbl : lock_table)
           (text : option string) : option string :=
  let path := lock_file_path lock_dir lock_name in
  match open_fault os path with
  | Some _ => text
  | None =>
      match tbl !! path with
      | Some _ => Some ""
      | None =>
          match flock_fault os path with
          | Some _ => Some ""
          | None =>
              match write_fault os path with
              | Some _ => Some (if close_flushes then pid else "")
              | None => Some pid
              end
          end
      end
  end.

(** [release_file_lock]: unlock and close; errors are logged only. *)
Definition release_file_lock (lf : option lock_file) (tbl : lock_table)
  : lock_table :=
  match lf with
  | None => tbl
  | Some f => delete (lf_path f) tbl
  end.

(** Whether a fault is taken for a held lock: an [IOError] with [EACCES] or
    [EAGAIN]. *)
Definition is_contention (f : fault) : bool :=
  match f with
  | IOError errno => (errno =? EACCES)%Z || (errno =? EAGAIN)%Z
  | OtherException _ => false
  end.

(** The exception [acquire_file_lock] runs into on a path, if any, in the
    order of its calls: [open], [flock] on a held lock, [flock] otherwise,
    [write]. *)
Definition first_fault (os : os_faults) (path : string) (tbl : lock_table)
  : option fault :=
  match open_fault os path with
  | Some f => Some f
  | None =>
      match tbl !! path with
      | Some _ => Some (IOError EAGAIN)
      | None =>
          match flock_fault os path with
          | Some f => Some f
          | None => write_fault os path
          end
      end
  end.

End FileLock.

(** ** Events and the pipeline monad *)

(** What the object store answers: [(True, {'url': ..})] or
    [(False, {'error': ..})]. *)
Inductive upload_result :=
| Uploaded (url : string)
| UploadFailed (error : string).

Inductive event :=
| EvUpdateState (current total : Z) (step : string) (progress : option Q)
| EvProgress (p : Q)
| EvStatus (status : string)
| EvRename (src dst : string)
| EvCopy (src dst : string)
| EvCreateDataset (name : string)
| EvSliceVideo (video_path : string)
| EvUpload (video_path object_path : string)
| EvAnalyze (slice_path title prev_analysis_result : string)
            (custom_dimensions : option string)
| EvCreateData (collection_id question answer : string)
| EvRemove (path : string)
| EvMove (src dst : string)
| EvCleanup (name : string)
| EvRelease (path : string).

(** The mutable state a pipeline run works on. *)
Record pstate := {
  trace : list event;                        (* calls made so far, oldest first *)
  slicer_info : option Slicer.slice_info;    (* [self.slicer.slice_info] *)
  locks : gmap string nat                    (* the kernel's lock table *)
}.

Definition set_locks (tbl : gmap string nat) (st : pstate) : pstate :=
  {| trace := trace st; slicer_info := slicer_info st; locks := tbl |}.

Definition M (A : Type) : Type := pstate -> res A * pstate.

Definition ret {A : Type} (a : A) : M A := fun st => (Ok a, st).

Definition raise {A : Type} (e : exn) : M A := fun st => (Raise e, st).

Definition bind {A B : Type} (m : M A) (k : A -> M B) : M B :=
  fun st =>
    match m st with
    | (Ok a, st') => k a st'
    | (Raise e, st') => (Raise e, st')
    end.

Notation "x <- m ;; k" := (bind m (fun x => k))
  (at level 100, m at next level, right associativity).
Notation "m ;;; k" := (bind m (fun _ => k))
  (at level 100, right associativity).

Definition emit (ev : event) : M unit :=
  fun st => (Ok tt, {| trace := trace st ++ [ev];
                       slicer_info := slicer_info st;
                       locks := locks st |}).

Definition lift {A : Type} (r : res A) : M A := fun st => (r, st).

(** [for x in l: s = body(s, x)]; an exception leaves the loop. *)
Fixpoint for_each {A S : Type} (body : S -> A -> M S) (l : list A) (s : S) : M S :=
  match l with
  | [] => ret s
  | x :: rest => s' <- body s x ;; for_each body rest s'
  end.

(** A computation that appends only events satisfying [P] to the trace,
    leaves the lock table as it is and does not depend on it. *)
Definition steps {A : Type} (P : event -> Prop) (m : M A) : Prop :=
  forall st, exists evs,
    trace (snd (m st)) = trace st ++ evs /\ Forall P evs /\
    locks (snd (m st)) = locks st /\
    forall tbl, m (set_locks tbl st) = (fst (m st), set_locks tbl (snd (m st))).

(** [s.replace(a, b)] for single characters. *)
Fixpoint replace_char (a b : Ascii.ascii) (s : string) : string :=
  match s with
  | EmptyString => EmptyString
  | String c rest =>
      String (if Ascii.eqb c a then b else c) (replace_char a b rest)
  end.

(** [x or y] on strings: the empty string and [None] are falsy. *)
Definition str_or (x : option string) (y : string) : string :=
  match x with
  | Some s => if String.eqb s "" then y else s
  | None => y
  end.

(** The collaborators of a pipeline run. *)
Record world := {
  slicer_env : Slicer.env;
  analyzer_env : Analyzer.env;
  lock_faults : FileLock.os_faults;
  lock_dir : string;                          (* [LOCK_DIR] *)
  slice_threshold : Q;                        (* [slice_config['slice_threshold']] *)
  temp_dir : string;                          (* [app.conf.TEMP_DIR] *)
  finish_dir : string;                        (* [slice_config['finish_dir']] *)
  fresh_uuid : nat -> string;                 (* the n-th [uuid.uuid4()] of a run *)
  basename : string -> string;
  dirname : string -> string;
  extension : string -> string;               (* [splitext(p)[1]], [Path(p).suffix] *)
  abspath : string -> string;
  url_base : string -> string;                (* the URL without query and fragment *)
  fs_exists : string -> bool;
  fs_writable : string -> bool;
  fs_rename : string -> string -> res unit;
  fs_move : string -> string -> res unit;
  fs_copy2 : string -> string -> res unit;
  fs_remove : string -> res unit;
  kb_login : res unit;                        (* [get_knowledge_base_handler] *)
  init_analyzer : res unit;                   (* [VideoAnalyzer(config)] *)
  create_dataset : string -> res string;
  create_data : string -> string -> string -> res unit;
  upload : string -> string -> upload_result  (* [upload_video_and_get_url] *)
}.

(** [self.slicer.slice_video(video_path=.., threshold=..)] on the shared
    slicer object. *)
Definition call_slice_video (w : world) (video_path : string)
  : M Slicer.SliceResult :=
  fun st =>
    let '(r, si) := Slicer.slice_video (slicer_env w) (slicer_info st)
                      video_path (slice_threshold w) in
    (Ok r, {| trace := trace st ++ [EvSliceVideo video_path];
              slicer_info := si;
              locks := locks st |}).

(** [self.slicer.get_slice_paths()]. *)
Definition call_get_slice_paths : M (list string) :=
  fun st => (Slicer.get_slice_paths (slicer_info st), st).

(** [analyzer.analyze_video_slice(..)], logged with its arguments. *)
Definition call_analyze (w : world) (slice_path title prev : string)
           (custom : option string) : M Analyzer.AnalysisResult :=
  emit (EvAnalyze slice_path title prev custom) ;;;
  ret (fst (Analyzer.analyze_video_slice (analyzer_env w) slice_path title
                                         prev custom)).

(** [analysis_result.analysis_info['analysis_result']]: subscripting [None]
    raises [TypeError]. *)
Definition analysis_text (ar : Analyzer.AnalysisResult) : res string :=
  match Analyzer.analysis_info ar with
  | Some ai => Ok (Analyzer.analysis_result ai)
  | None => Raise "'NoneType' object is not subscriptable"
  end.

Definition newline : string := String (Ascii.ascii_of_nat 10) EmptyString.

(** The ingestion payload [f"{text}\n\n{file_path}"]. *)
Definition question_of (text file_path : string) : string :=
  text +:+ newline +:+ newline +:+ file_path.

(** Events by kind. *)
Definition is_release (ev : event) : bool :=
  match ev with EvRelease _ => true | _ => false end.

(** Uploading, analysing or ingesting a segment. *)
Definition is_segment_work (ev : event) : bool :=
  match ev with
  | EvUpload _ _ | EvAnalyze _ _ _ _ | EvCreateData _ _ _ => true
  | _ => false
  end.

(** The previous-analysis texts handed to the analyzer, call by call. *)
Definition analysis_inputs (tr : list event) : list (string * string) :=
  omap (fun ev => match ev with
                  | EvAnalyze slice_path _ prev _ => Some (slice_path, prev)
                  | _ => None
                  end) tr.


(** ** The queue-driven pipeline: [tasks.process_video_task] *)
Module Tasks.

Record task_args := {
  video_file_path : string;
  knowledge_base_id : string;
  custom_dimensions : option string;
  original_video_name : option string;
  processing_uuid : option string
}.

(** The dict a task returns, by its ['status']. *)
Inductive task_result :=
| Skipped (message video_name processing_uuid : string)
| Success (video_name processing_uuid dataset_id : string) (total_slices : nat)
| Failed (error video_name processing_uuid : string).

Definition status (r : task_result) : string :=
  match r with
  | Skipped _ _ _ => "skipped"
  | Success _ _ _ _ => "success"
  | Failed _ _ _ => "failed"
  end.

Definition loop_progress (idx total_slices : nat) : Q :=
  (30 + inject_Z (Z.of_nat idx) / inject_Z (Z.of_nat total_slices) * 60)%Q.

(** The body of [for idx, slice_path in enumerate(slice_paths, 1)]; the
    loop carries [prev_analysis_result], and [continue] hands it on
    unchanged. *)
Definition slice_body (w : world) (video_name uuid dataset_id : string)
           (custom : option string) (total_slices : nat)
           (prev_analysis_result : string) (p : nat * string) : M string :=
  let '(idx, slice_path) := p in
  emit (EvUpdateState (Z.of_nat idx) (Z.of_nat total_slices)
          ("处理第 " +:+ show_nat idx +:+ "/" +:+ show_nat total_slices +:+ " 个切片")
          (Some (loop_progress idx total_slices))) ;;;
  let object_path := uuid +:+ "/slice_" +:+ show_nat idx +:+ ".mp4" in
  emit (EvUpload slice_path object_path) ;;;
  match upload w slice_path object_path with
  | UploadFailed _ => ret prev_analysis_result
  | Uploaded url =>
      let file_path := url_base w url in
      analysis_result <- call_analyze w slice_path video_name
                           prev_analysis_result custom ;;
      if negb (Analyzer.success analysis_result) then ret prev_analysis_result
      else
        text <- lift (analysis_text analysis_result) ;;
        emit (EvCreateData dataset_id (question_of text file_path)
                           (abspath w slice_path)) ;;;
        lift (create_data w dataset_id (question_of text file_path)
                          (abspath w slice_path)) ;;;
        ret text
  end.

(** The inner [try] block. The writes to [self.config] at its start only
    set entries read by the collaborators, which are oracles here. *)
Definition task_body (w : world) (args : task_args) (video_name uuid : string)
  : M task_result :=
  emit (EvUpdateState 1 100 "初始化处理环境" None) ;;;
  lift (kb_login w) ;;;
  lift (init_analyzer w) ;;;
  let file_extension := extension w video_name in
  let new_video_name := uuid +:+ file_extension in
  let new_video_path := path_join (temp_dir w) new_video_name in
  emit (EvCopy (video_file_path args) new_video_path) ;;;
  lift (fs_copy2 w (video_file_path args) new_video_path) ;;;
  emit (EvUpdateState 10 100 "创建知识库数据集" None) ;;;
  emit (EvCreateDataset uuid) ;;;
  dataset_id <- lift (create_dataset w uuid) ;;
  emit (EvUpdateState 20 100 "开始视频切片" None) ;;;
  call_slice_video w new_video_path ;;;
  emit (EvUpdateState 30 100 "处理视频切片" None) ;;;
  slice_paths <- call_get_slice_paths ;;
  let total_slices := length slice_paths in
  for_each (slice_body w video_name uuid dataset_id (custom_dimensions args)
                       total_slices)
           (enumerate 1 slice_paths) "" ;;;
  emit (EvUpdateState 95 100 "清理临时文件" None) ;;;
  (if fs_exists w new_video_path
   then emit (EvRemove new_video_path) ;;; lift (fs_remove w new_video_path)
   else ret tt) ;;;
  ret (Success video_name uuid dataset_id total_slices).

Definition lock_name_of (video_name : string) : string :=
  "video_process_" +:+ replace_char "." "_" (replace_char " " "_" video_name).

(** What a character of the video name is in the lock name. *)
Definition lock_char (c : Ascii.ascii) : Ascii.ascii :=
  if Ascii.eqb c " " then "_"%char
  else if Ascii.eqb c "." then "_"%char
  else c.

(** The [except Exception] clause of the inner [try]: an exception of the
    body becomes a ['failed'] result. *)
Definition result_of_body (video_name uuid : string) (r : res task_result)
  : task_result :=
  match r with
  | Ok result => result
  | Raise e => Failed e video_name uuid
  end.

Definition video_name_of (w : world) (args : task_args) : string :=
  str_or (original_video_name args) (basename w (video_file_path args)).

Definition uuid_of (w : world) (args : task_args) : string :=
  str_or (processing_uuid args) (fresh_uuid w 0).

Definition lock_path_of (w : world) (args : task_args) : string :=
  FileLock.lock_file_path (lock_dir w) (lock_name_of (video_name_of w args)).

(** [process_video_task], run by worker [me]. *)
Definition process_video_task (w : world) (me : nat) (args : task_args)
           (st : pstate) : task_result * pstate :=
  let video_name := video_name_of w args in
  let uuid := uuid_of w args in
  let '((lock_acquired, lock_file), tbl) :=
    FileLock.acquire_file_lock (lock_faults w) me (lock_dir w)
                               (lock_name_of video_name) (locks st) in
  let st1 := set_locks tbl st in
  if negb lock_acquired then
    (Skipped "该视频正在被其他任务处理" video_name uuid, st1)
  else
    let '(r, st2) := task_body w args video_name uuid st1 in
    let result := result_of_body video_name uuid r in
    (* finally: if lock_file: release *)
    match lock_file with
    | Some lf =>
        (result,
         {| trace := trace st2 ++ [EvRelease (FileLock.lf_path lf)];
            slicer_info := slicer_info st2;
            locks := FileLock.release_file_lock (Some lf) (locks st2) |})
    | None => (result, st2)
    end.

End Tasks.

(** ** The in-process pipeline and the batch orchestrator: [main.py] *)
Module Main.

(** The dict [process_single_video] returns, or the entry the orchestrator
    records for a video that kept failing. *)
Inductive video_result :=
| VSuccess (video_name dataset_id : string) (total_slices : nat)
| VFailed (video_name error : string).

Definition result_video (r : video_result) : string :=
  match r with
  | VSuccess v _ _ => v
  | VFailed v _ => v
  end.

(** The renaming block at the start of [process_single_video]: the path
    the source file ends up at. *)
Definition rename_source (w : world) (video_path video_uuid : string)
  : M string :=
  let file_extension := extension w video_path in
  let new_video_path :=
    path_join (dirname w video_path) (video_uuid +:+ file_extension) in
  if fs_exists w new_video_path then
    (* FileExistsError: one more UUID is drawn *)
    let new_video_path :=
      path_join (dirname w video_path) (fresh_uuid w 1 +:+ file_extension) in
    emit (EvRename video_path new_video_path) ;;;
    lift (fs_rename w video_path new_video_path) ;;;
    ret new_video_path
  else if negb (fs_exists w video_path) then
    raise ("源文件不存在: " +:+ video_path)
  else if negb (fs_writable w (dirname w new_video_path)) then
    raise ("没有写入权限: " +:+ new_video_path)
  else
    emit (EvRename video_path new_video_path) ;;;
    lift (fs_rename w video_path new_video_path) ;;;
    ret new_video_path.

(** [len(slices.slice_info)]: the number of keys of the dict, or
    [TypeError] when slicing failed and [slice_info] is [None]. *)
Definition len_slice_info (slices : Slicer.SliceResult) : res nat :=
  match Slicer.sr_slice_info slices with
  | Some si => Ok (Slicer.slice_info_len si)
  | None => Raise "object of type 'NoneType' has no len()"
  end.

(** [extract_file_path(slice_store_info)]: [slice_store_info['url']]
    raises [KeyError] on the dict of a failed upload. *)
Definition extract_file_path (w : world) (info : upload_result) : res string :=
  match info with
  | Uploaded url => Ok (url_base w url)
  | UploadFailed _ => Raise "'url'"
  end.

Definition loop_progress (idx total_slices : nat) : Q :=
  (50 + inject_Z (Z.of_nat idx) / inject_Z (Z.of_nat total_slices) * 50)%Q.

(** The body of [for idx, slice_path in enumerate(slice_paths, 1)]. The
    loop variable [pre_result] is carried from one iteration to the next,
    and the body assigns the empty string to it before the analysis. *)
Definition slice_body (w : world) (video_name video_uuid dataset_id : string)
           (total_slices : nat) (pre_result : string) (p : nat * string)
  : M string :=
  let '(idx, slice_path) := p in
  let object_path := video_uuid +:+ "/slice_" +:+ show_nat idx +:+ ".mp4" in
  emit (EvUpload slice_path object_path) ;;;
  file_path <- lift (extract_file_path w (upload w slice_path object_path)) ;;
  let pre_result := "" in
  analysis_result <- call_analyze w slice_path video_name pre_result None ;;
  pre_result <- lift (analysis_text analysis_result) ;;
  emit (EvCreateData dataset_id (question_of pre_result file_path)
                     (abspath w slice_path)) ;;;
  lift (create_data w dataset_id (question_of pre_result file_path)
                    (abspath w slice_path)) ;;;
  (if (total_slices =? 0)%nat then raise "division by zero" else ret tt) ;;;
  emit (EvProgress (loop_progress idx total_slices)) ;;;
  ret pre_result.

(** The outer [try] block of [process_single_video]. *)
Definition video_body (w : world) (video_path video_name video_uuid : string)
  : M video_result :=
  new_video_path <- rename_source w video_path video_uuid ;;
  emit (EvCreateDataset video_uuid) ;;;
  dataset_id <- lift (create_dataset w video_uuid) ;;
  emit (EvProgress 35) ;;;
  slices <- call_slice_video w new_video_path ;;
  emit (EvProgress 50) ;;;
  total_slices <- lift (len_slice_info slices) ;;
  slice_paths <- call_get_slice_paths ;;
  for_each (slice_body w video_name video_uuid dataset_id total_slices)
           (enumerate 1 slice_paths) "" ;;;
  emit (EvStatus "completed") ;;;
  emit (EvProgress 100) ;;;
  let dst := path_join (finish_dir w) (basename w video_path) in
  emit (EvMove new_video_path dst) ;;;
  lift (fs_move w new_video_path dst) ;;;
  ret (VSuccess video_name dataset_id total_slices).

(** [process_single_video]: the [except] clause marks the job failed and
    re-raises; the [finally] clause cleans up on every path. *)
Definition process_single_video (w : world) (video_path : string)
  : M video_result :=
  let video_name := basename w video_path in
  let video_uuid := fresh_uuid w 0 in
  fun st =>
    let '(_, st0) := (emit (EvStatus "processing") ;;; emit (EvProgress 0)) st in
    match video_body w video_path video_name video_uuid st0 with
    | (Ok r, st1) =>
        let '(_, st2) := emit (EvCleanup video_uuid) st1 in (Ok r, st2)
    | (Raise e, st1) =>
        let '(_, st2) := (emit (EvStatus "failed") ;;;
                          emit (EvCleanup video_uuid)) st1 in
        (Raise e, st2)
    end.

(** The values written to [processing_status[uuid]['progress']], in
    order. *)
Definition progress_log (tr : list event) : list Q :=
  omap (fun ev => match ev with EvProgress p => Some p | _ => None end) tr.

(** *** [process_all_videos_batch] *)

Definition ends_with (suffix s : string) : bool :=
  (String.length suffix <=? String.length s)%nat &&
  String.eqb (String.substring (String.length s - String.length suffix)
                               (String.length suffix) s) suffix.

Definition is_video_file (f : string) : bool :=
  ends_with ".mp4" f || ends_with ".avi" f || ends_with ".mov" f.

Section Batch.

(** [tagging_service.update_folder_mappings]. *)
Variable update_folder_mappings : res unit.
(** The outcome [gather(.., return_exceptions=True)] reports for a video
    in the run numbered [retry] of its batch: the dict returned by
    [process_single_video], or the exception it raised. *)
Variable run : string -> nat -> res video_result.
Variable batch_size : nat.
Variable max_retries : nat.

Definition process_batch (batch : list string) (retry : nat)
  : list (res video_result) :=
  map (fun video => run video retry) batch.

(** [for video, res in zip(batch, batch_results)]: the [break] after a
    recorded success leaves this loop. *)
Fixpoint scan_batch (retry : nat) (pairs : list (string * res video_result))
         (results : list video_result) : list video_result :=
  match pairs with
  | [] => results
  | (video, Raise e) :: rest =>
      scan_batch retry rest
                 (if (retry =? max_retries - 1)%nat
                  then results ++ [VFailed video e]
                  else results)
  | (video, Ok r) :: rest => results ++ [r]
  end.

(** [for retry in range(max_retries)]. *)
Definition retry_batch (batch : list string) (results : list video_result)
  : list video_result :=
  fold_left (fun results retry =>
               scan_batch retry (zip batch (process_batch batch retry)) results)
            (seq 0 max_retries) results.

(** [range(0, len(video_files), batch_size)] for a positive step. *)
Definition batch_starts (n : nat) : list nat :=
  map (fun k => k * batch_size) (seq 0 ((n + batch_size - 1) / batch_size)).

Definition batch_progress (results : list video_result) (total_count : nat) : Q :=
  (inject_Z (Z.of_nat (length results)) / inject_Z (Z.of_nat total_count) * 100)%Q.

(** [process_all_videos_batch] on the listing [files] of the input
    directory: the results list and the values written to
    [processing_status['batch_progress']]. *)
Definition process_all_videos_batch (files : list string)
  : res (list video_result * list Q) :=
  match update_folder_mappings with
  | Raise e => Raise e
  | Ok _ =>
      let video_files := List.filter is_video_file files in
      if (batch_size =? 0)%nat
      then Raise "range() arg 3 must not be zero"
      else
        Ok (fold_left
              (fun (acc : list video_result * list Q) i =>
                 let batch := take batch_size (drop i video_files) in
                 let results := retry_batch batch (fst acc) in
                 (results,
                  snd acc ++ [batch_progress results (length video_files)]))
              (batch_starts (length video_files)) ([], []))
  end.

End Batch.

(** The results list of a batch run; empty when the run raised. *)
Definition results_of (r : res (list video_result * list Q)) : list video_result :=
  match r with
  | Ok (results, _) => results
  | Raise _ => []
  end.

(** The entries a results list holds for a video. *)
Definition entries_for (video : string) (results : list video_result)
  : list video_result :=
  List.filter (fun r => String.eqb (result_video r) video) results.

End Main.


(** ** Probing the container: [VideoSlicer._get_video_duration] *)
Module Probe.

(** What the call of ffprobe comes to, up to the two fields the code reads:
    the strings [data['streams'][0]['r_frame_rate']] and
    [data['streams'][0]['nb_frames']], or the exception raised on the way
    (by [subprocess.run], by [json.loads], by a missing stream or key). *)
Inductive ffprobe_answer :=
| FfprobeFails (e : exn)
| FfprobeStream (r_frame_rate nb_frames : string).

(** [s.split(c)] for a one-character separator. *)
Fixpoint split_on (c : Ascii.ascii) (s : string) : list string :=
  match s with
  | EmptyString => [EmptyString]
  | String a rest =>
      if Ascii.eqb a c then EmptyString :: split_on c rest
      else
        match split_on c rest with
        | hd :: tl => String a hd :: tl
        | [] => [String a EmptyString]
        end
  end.

(** [fps_num, fps_den = map(int, parts)]: the lazy [map] converts a part
    when the unpacking asks for it, a third part included. *)
Definition unpack_two_ints (py_int : string -> res Z) (parts : list string)
  : res (Z * Z) :=
  match parts with
  | [] => Raise "not enough values to unpack (expected 2, got 0)"
  | a :: rest =>
      match py_int a with
      | Raise e => Raise e
      | Ok num =>
          match rest with
          | [] => Raise "not enough values to unpack (expected 2, got 1)"
          | b :: rest' =>
              match py_int b with
              | Raise e => Raise e
              | Ok den =>
                  match rest' with
                  | [] => Ok (num, den)
                  | c :: _ =>
                      match py_int c with
                      | Raise e => Raise e
                      | Ok _ => Raise "too many values to unpack (expected 2)"
                      end
                  end
              end
          end
      end
  end.

(** [_get_video_duration]: [run_ffprobe] is the call of ffprobe on a path,
    [py_int] is [int] on a string. The [except] clause logs and
    re-raises. *)
Definition get_video_duration (run_ffprobe : string -> ffprobe_answer)
           (py_int : string -> res Z) (video_path : string)
  : res Slicer.video_info :=
  match run_ffprobe video_path with
  | FfprobeFails e => Raise e
  | FfprobeStream fps_str nb_frames =>
      match unpack_two_ints py_int (split_on "/" fps_str) with
      | Raise e => Raise e
      | Ok (fps_num, fps_den) =>
          match PyFloat.int_true_div fps_num fps_den with
          | Raise e => Raise e
          | Ok fps =>
              match py_int nb_frames with
              | Raise e => Raise e
              | Ok frame_count =>
                  match PyFloat.int_div frame_count fps with
                  | Raise e => Raise e
                  | Ok duration =>
                      Ok {| Slicer.frame_count := frame_count;
                            Slicer.total_duration := duration;
                            Slicer.fps := fps |}
                  end
              end
          end
      end
  end.

(** [VideoSlicer.get_slice_count]. *)
Definition get_slice_count (self_slice_info : option Slicer.slice_info) : res nat :=
  match self_slice_info with
  | None => Raise "'NoneType' object has no attribute 'get'"
  | Some si => Ok (length (Slicer.si_segments si))
  end.

End Probe.

(** ** The object store: [MinIOHandler] *)
Module ObjectStore.

Definition slash : Ascii.ascii := "/"%char.

(** [s.lstrip('/')] and [s.rstrip('/')]. *)
Fixpoint lstrip_slash (s : string) : string :=
  match s with
  | String c rest => if Ascii.eqb c slash then lstrip_slash rest else s
  | EmptyString => EmptyString
  end.

Fixpoint rstrip_slash (s : string) : string :=
  match s with
  | EmptyString => EmptyString
  | String c rest =>
      match rstrip_slash rest with
      | EmptyString => if Ascii.eqb c slash then EmptyString else String c EmptyString
      | rest' => String c rest'
      end
  end.

(** [s.strip('/')]. *)
Definition strip_slash (s : string) : string := rstrip_slash (lstrip_slash s).

(** What [fput_object] does: it writes, raises [S3Error], or raises
    something else. *)
Inductive put_outcome :=
| PutDone
| PutS3Error (msg : string)
| PutRaises (e : exn).

Record store := {
  endpoint : string;
  bucket : string;
  raw_prefix : option string;                 (* [minio_config.get('prefix', '')] *)
  local_exists : string -> bool;              (* [os.path.exists] *)
  local_basename : string -> string;          (* [os.path.basename] *)
  fput_object : string -> string -> put_outcome   (* object name, local file *)
}.

(** [self.prefix], set in [__init__]. *)
Definition prefix_of (s : store) : string :=
  match raw_prefix s with
  | Some p => strip_slash p
  | None => EmptyString
  end.

(** [MinIOHandler._get_full_path]. *)
Definition get_full_path (s : store) (object_path : string) : string :=
  let clean_path := strip_slash object_path in
  if String.eqb (prefix_of s) "" then clean_path
  else prefix_of s +:+ "/" +:+ clean_path.

(** The three things [upload_file] returns: the tuple
    [(False, "文件不存在")], the write result of [fput_object], or [None]
    after an [S3Error]. *)
Inductive upload_file_result :=
| MissingTuple
| WriteResult
| NoneResult.

(** Truth value of what [upload_file] returned: a non-empty tuple and a
    write result are truthy, [None] is falsy. *)
Definition truthy (r : upload_file_result) : bool :=
  match r with
  | MissingTuple | WriteResult => true
  | NoneResult => false
  end.

(** [MinIOHandler.upload_file]; only [S3Error] is caught. *)
Definition upload_file (s : store) (file_path : string)
           (object_path : option string) : res upload_file_result :=
  if negb (local_exists s file_path) then Ok MissingTuple
  else
    let object_path :=
      match object_path with
      | Some p => p
      | None => local_basename s file_path
      end in
    match fput_object s (get_full_path s object_path) file_path with
    | PutDone => Ok WriteResult
    | PutS3Error _ => Ok NoneResult
    | PutRaises e => Raise e
    end.

(** [MinIOHandler.get_public_url]: the URL is put together from the
    configuration; nothing is asked of the store. *)
Definition get_public_url (s : store) (object_path : string) : string :=
  "https://" +:+ endpoint s +:+ "/" +:+ bucket s +:+ "/" +:+
  get_full_path s object_path.

(** [MinIOHandler.upload_video_and_get_url]: [True] with the URL, or
    [False] with an error text. *)
Definition upload_video_and_get_url (s : store) (video_path : string)
           (object_path : option string) : upload_result :=
  match upload_file s video_path object_path with
  | Raise e => UploadFailed ("处理失败: " +:+ e)
  | Ok upload_result =>
      if negb (truthy upload_result) then UploadFailed "视频上传失败"
      else
        let actual_object_path :=
          match object_path with
          | Some p => if String.eqb p "" then local_basename s video_path else p
          | None => local_basename s video_path
          end in
        Uploaded (get_public_url s actual_object_path)
  end.

End ObjectStore.

(** ** The polling client: [streamlit_ui.py], [pages/03_batch_processing.py] *)
Module Frontend.

(** [int(x)] on a float: truncation towards zero. *)
Definition py_int (x : Q) : Z :=
  if Qle_bool 0 x then Qfloor x else Qceiling x.

(** The [meta] dict of a [PROGRESS] state; an absent key is [None]. *)
Record meta := {
  m_current : option Z;
  m_total : option Z;
  m_progress : option Q
}.

Definition or_default {A : Type} (x : option A) (d : A) : A :=
  match x with
  | Some v => v
  | None => d
  end.

(** [display_task_progress], branch [PROGRESS]:
    [meta.get('progress', current / total * 100) if total else 0]. *)
Definition progress_value (m : meta) : Q :=
  let current := or_default (m_current m) 0%Z in
  let total := or_default (m_total m) 100%Z in
  if (total =? 0)%Z then 0%Q
  else or_default (m_progress m)
                  (inject_Z current / inject_Z total * 100)%Q.

(** The percentage handed to [st.progress] as [int(progress) / 100]. *)
Definition shown_percent (m : meta) : Z := py_int (progress_value m).

(** The [meta] the task passes to [update_state]. *)
Definition meta_of (ev : event) : option meta :=
  match ev with
  | EvUpdateState current total _ progress =>
      Some {| m_current := Some current; m_total := Some total;
              m_progress := progress |}
  | _ => None
  end.

(** The percentages a client polling after every [update_state] shows. *)
Definition shown_log (tr : list event) : list Z :=
  omap (fun ev => option_map shown_percent (meta_of ev)) tr.

(** [save_task_history]: the entry with the same ['task_id'] is replaced in
    place, the first one found; otherwise the entry is appended. An entry is
    its id and the rest of the dict. *)
Fixpoint save_task_history {A : Type} (task_info : string * A)
         (history : list (string * A)) : list (string * A) :=
  match history with
  | [] => [task_info]
  | task :: rest =>
      if String.eqb (fst task) (fst task_info) then task_info :: rest
      else task :: save_task_history task_info rest
  end.

(** The first entry of a history with a given id. *)
Fixpoint find_task {A : Type} (task_id : string) (history : list (string * A))
  : option A :=
  match history with
  | [] => None
  | task :: rest =>
      if String.eqb (fst task) task_id then Some (snd task)
      else find_task task_id rest
  end.

End Frontend.

(** A computation whose [update_state] calls show percentages between [lo]
    and [hi], each at least the one before. *)
Definition climbs {A : Type} (lo hi : Z) (m : M A) : Prop :=
  forall st, exists evs,
    trace (snd (m st)) = trace st ++ evs /\
    Forall (fun v => (lo <= v <= hi)%Z) (Frontend.shown_log evs) /\
    StronglySorted Z.le (Frontend.shown_log evs).

(** ** The sequential and the per-directory drivers: [main.py] *)
Module Drivers.

(** [process_all_videos]: [listdir] is [os.listdir], called outside every
    [try]. The videos are processed one after the other on the same
    processor; [worlds k] is how the collaborators behave while the [k]-th
    video is processed. *)
Definition process_all_videos (worlds : nat -> world)
           (listdir : string -> res (list string)) (input_dir : string)
  : M (list Main.video_result) :=
  files <- lift (listdir input_dir) ;;
  for_each
    (fun (results : list Main.video_result) (p : nat * string) =>
       fun st =>
         match Main.process_single_video (worlds (fst p))
                 (path_join input_dir (snd p)) st with
         | (Ok result, st') => (Ok (results ++ [result]), st')
         | (Raise e, st') => (Ok (results ++ [Main.VFailed (snd p) e]), st')
         end)
    (enumerate 0 (List.filter Main.is_video_file files)) [].

Definition model_prefix : string := "理想L7".

(** [load_config_from_dir]: for a matching name it assigns through
    [self.analyse_config], an attribute a [VideoProcessor] does not have. *)
Definition load_config_from_dir (dir_name : string) : res unit :=
  if String.prefix model_prefix dir_name
  then Raise "'VideoProcessor' object has no attribute 'analyse_config'"
  else Ok tt.

(** [process_all_subdirs] on the listing of [input_dir], each entry with
    whether it is a directory; [batch] is [process_all_videos_batch] on a
    subdirectory. *)
Definition process_all_subdirs (entries : list (string * bool))
           (batch : string -> res (list Main.video_result))
  : res (list Main.video_result) :=
  let subdirs :=
    map fst (List.filter (fun d => snd d && String.prefix model_prefix (fst d))
                         entries) in
  fold_left
    (fun (acc : res (list Main.video_result)) subdir =>
       match acc with
       | Raise e => Raise e
       | Ok results =>
           match load_config_from_dir subdir with
           | Raise e => Raise e
           | Ok _ =>
               match batch subdir with
               | Raise e => Raise e
               | Ok subdir_results => Ok (results ++ subdir_results)
               end
           end
       end)
    subdirs (Ok []).

End Drivers.

(** ** Concrete runs

    Inputs on which the embedded functions are evaluated. *)
Module Scenario.

(** Segments shorter than one second are dropped. *)
Definition cfg : Slicer.slice_config :=
  {| Slicer.output_dir := "out"; Slicer.min_duration := Some (PyFloat.of_Z 1) |}.

(** A 6 second video at 25 frames per second. *)
Definition info : Slicer.video_info :=
  {| Slicer.frame_count := 150; Slicer.total_duration := PyFloat.of_Z 6;
     Slicer.fps := PyFloat.of_Z 25 |}.

Definition ffmpeg_ok (_ : Slicer.ffmpeg_cmd) : bool := true.

(** Three scenes; the middle one lasts 20 frames, 0.8 s. *)
Definition scenes_gap : list Slicer.scene := [(0, 50); (50, 70); (70, 150)]%Z.


(** Two overlapping scenes that start one frame apart, past the frame
    numbers a float tells apart. *)
Definition scenes_far : list Slicer.scene :=
  [(2 ^ 53, 2 ^ 53 + 50); (2 ^ 53 + 1, 2 ^ 53 + 100)]%Z.

(** Two scenes, both long enough. *)
Definition scenes_full : list Slicer.scene := [(0, 50); (50, 150)]%Z.

Definition slicing (scenes : list Slicer.scene) : Slicer.slice_info :=
  Slicer.perform_slicing cfg ffmpeg_ok "in/v.mp4" "v" "in" info scenes.

(** A clip of ten frames of which only the first decodes. *)
Definition clip_one_readable : Analyzer.capture :=
  {| Analyzer.is_opened := true;
     Analyzer.prop_frame_count := 10;
     Analyzer.frame_readable := fun n => (n =? 0)%Z |}.

(** A path at which no capture opens. *)
Definition clip_unopened : Analyzer.capture :=
  {| Analyzer.is_opened := false;
     Analyzer.prop_frame_count := 10;
     Analyzer.frame_readable := fun _ => true |}.

(** A clip of ten readable frames. *)
Definition clip_good : Analyzer.capture :=
  {| Analyzer.is_opened := true;
     Analyzer.prop_frame_count := 10;
     Analyzer.frame_readable := fun _ => true |}.

(** An analyzer whose description service times out on every request. *)
Definition env_down : Analyzer.env :=
  {| Analyzer.frames_per_slice := None;
     Analyzer.model_name := "m";
     Analyzer.open_capture := fun _ => clip_good;
     Analyzer.mkdtemp := fun _ => "/tmp/f";
     Analyzer.read_b64 := fun _ => Ok "AAAA";
     Analyzer.chat_create := fun _ n =>
       Analyzer.ApiRaises ("timeout " +:+ show_nat n) |}.

(** An analyzer whose description service answers every request. *)
Definition env_up : Analyzer.env :=
  {| Analyzer.frames_per_slice := None;
     Analyzer.model_name := "m";
     Analyzer.open_capture := fun _ => clip_good;
     Analyzer.mkdtemp := fun _ => "/tmp/f";
     Analyzer.read_b64 := fun _ => Ok "AAAA";
     Analyzer.chat_create := fun _ _ =>
       Analyzer.ApiReturns
         (Some {| Analyzer.choices := [Some "a car drives"];
                  Analyzer.usage := Analyzer.UsageTokens 7 |}) |}.

Definition no_faults : FileLock.os_faults :=
  {| FileLock.open_fault := fun _ => None;
     FileLock.flock_fault := fun _ => None;
     FileLock.write_fault := fun _ => None |}.

(** Opening the lock file fails with [EIO]. *)
Definition open_eio : FileLock.os_faults :=
  {| FileLock.open_fault := fun _ => Some (FileLock.IOError 5);
     FileLock.flock_fault := fun _ => None;
     FileLock.write_fault := fun _ => None |}.

(** Six scenes of 25 frames, one second each. *)
Definition scenes_six : list Slicer.scene :=
  [(0, 25); (25, 50); (50, 75); (75, 100); (100, 125); (125, 150)]%Z.

(** A world in which every collaborator works, the video [in/v.mp4] is cut
    into [scenes], and the lock file calls fault as [os] says. *)
Definition world_of (scenes : list Slicer.scene) (os : FileLock.os_faults) : world :=
  {| slicer_env :=
       {| Slicer.config := cfg;
          Slicer.path_exists := fun _ => true;
          Slicer.probe := fun _ => Ok info;
          Slicer.detect := fun _ _ => Ok scenes;
          Slicer.run_ffmpeg := ffmpeg_ok;
          Slicer.path_stem := fun _ => "v";
          Slicer.path_parent_name := fun _ => "in" |};
     analyzer_env := env_up;
     lock_faults := os;
     lock_dir := "/tmp/locks";
     slice_threshold := 27;
     temp_dir := "/tmp/work";
     finish_dir := "done";
     fresh_uuid := fun n => "uuid" +:+ show_nat n;
     basename := fun _ => "v.mp4";
     dirname := fun _ => "in";
     extension := fun _ => ".mp4";
     abspath := fun p => "/srv/" +:+ p;
     url_base := fun u => u;
     fs_exists := fun p => String.eqb p "in/v.mp4";
     fs_writable := fun _ => true;
     fs_rename := fun _ _ => Ok tt;
     fs_move := fun _ _ => Ok tt;
     fs_copy2 := fun _ _ => Ok tt;
     fs_remove := fun _ => Ok tt;
     kb_login := Ok tt;
     init_analyzer := Ok tt;
     create_dataset := fun name => Ok ("ds-" +:+ name);
     create_data := fun _ _ _ => Ok tt;
     upload := fun _ object_path => Uploaded ("http://store/" +:+ object_path) |}.

Definition args : Tasks.task_args :=
  {| Tasks.video_file_path := "in/v.mp4";
     Tasks.knowledge_base_id := "kb";
     Tasks.custom_dimensions := None;
     Tasks.original_video_name := None;
     Tasks.processing_uuid := None |}.

(** A fresh worker: nothing logged, no slicing done yet, no lock held. *)
Definition st0 : pstate :=
  {| trace := []; slicer_info := None; locks := ∅ |}.

(** The same, while worker 7 holds the lock of [v.mp4]. *)
Definition st_held : pstate :=
  {| trace := []; slicer_info := None;
     locks := {[ "/tmp/locks/video_process_v_mp4.lock" := 7 ]} |}.

(** Outcomes of the pipelines of a batch: every run succeeds. *)
Definition run_ok (video : string) (retry : nat) : res Main.video_result :=
  Ok (Main.VSuccess video ("ds-" +:+ video) 5).

(** Every first run succeeds and moves the source file away, so that a
    later run of the same video finds no source file. *)
Definition run_once (video : string) (retry : nat) : res Main.video_result :=
  if (retry =? 0)%nat then Ok (Main.VSuccess video ("ds-" +:+ video) 5)
  else Raise ("源文件不存在: " +:+ video).

(** Five videos of which the third fails on its first two runs. *)
Definition run_third_flaky (video : string) (retry : nat) : res Main.video_result :=
  if String.eqb video "3.mp4" && (retry <? 2)%nat then Raise "boom"
  else Ok (Main.VSuccess video ("ds-" +:+ video) 5).

End Scenario.

(** ** Inputs of the further runs *)
Module Cases.
Import Scenario.

(** The segments left in the slicer by an earlier video. *)
Definition earlier_info : Slicer.slice_info :=
  Slicer.perform_slicing cfg ffmpeg_ok "in/old.mp4" "old" "in" info scenes_full.

(** A worker whose slicer still holds the segments of an earlier video. *)
Definition st_used : pstate :=
  {| trace := []; slicer_info := Some earlier_info; locks := ∅ |}.

(** The world of [world_of], except that the video file is gone when the
    slicer looks for it. *)
Definition world_missing : world :=
  {| slicer_env :=
       {| Slicer.config := cfg;
          Slicer.path_exists := fun _ => false;
          Slicer.probe := fun _ => Ok info;
          Slicer.detect := fun _ _ => Ok scenes_full;
          Slicer.run_ffmpeg := ffmpeg_ok;
          Slicer.path_stem := fun _ => "v";
          Slicer.path_parent_name := fun _ => "in" |};
     analyzer_env := env_up;
     lock_faults := no_faults;
     lock_dir := "/tmp/locks";
     slice_threshold := 27;
     temp_dir := "/tmp/work";
     finish_dir := "done";
     fresh_uuid := fun n => "uuid" +:+ show_nat n;
     basename := fun _ => "v.mp4";
     dirname := fun _ => "in";
     extension := fun _ => ".mp4";
     abspath := fun p => "/srv/" +:+ p;
     url_base := fun u => u;
     fs_exists := fun p => String.eqb p "in/v.mp4";
     fs_writable := fun _ => true;
     fs_rename := fun _ _ => Ok tt;
     fs_move := fun _ _ => Ok tt;
     fs_copy2 := fun _ _ => Ok tt;
     fs_remove := fun _ => Ok tt;
     kb_login := Ok tt;
     init_analyzer := Ok tt;
     create_dataset := fun name => Ok ("ds-" +:+ name);
     create_data := fun _ _ _ => Ok tt;
     upload := fun _ object_path => Uploaded ("http://store/" +:+ object_path) |}.

(** An analyzer whose service times out once and then answers. *)
Definition env_flaky : Analyzer.env :=
  {| Analyzer.frames_per_slice := None;
     Analyzer.model_name := "m";
     Analyzer.open_capture := fun _ => clip_good;
     Analyzer.mkdtemp := fun _ => "/tmp/f";
     Analyzer.read_b64 := fun _ => Ok "AAAA";
     Analyzer.chat_create := fun _ n =>
       if (n =? 0)%nat then Analyzer.ApiRaises "timeout"
       else Analyzer.ApiReturns
              (Some {| Analyzer.choices := [Some "a car stops"];
                       Analyzer.usage := Analyzer.UsageAbsent |}) |}.

(** An analyzer whose second frame file cannot be read back. *)
Definition env_unreadable : Analyzer.env :=
  {| Analyzer.frames_per_slice := None;
     Analyzer.model_name := "m";
     Analyzer.open_capture := fun _ => clip_good;
     Analyzer.mkdtemp := fun _ => "/tmp/f";
     Analyzer.read_b64 := fun f =>
       if String.eqb f "/tmp/f/frame_1.jpg" then Raise "No such file or directory"
       else Ok "AAAA";
     Analyzer.chat_create := fun _ _ => Analyzer.ApiRaises "unreachable" |}.

(** A world with another knowledge store, object store and analyzer. *)
Definition rebuild (w : world) (dataset : string -> res string)
           (store : string -> string -> upload_result) (ae : Analyzer.env) : world :=
  {| slicer_env := slicer_env w; analyzer_env := ae;
     lock_faults := lock_faults w; lock_dir := lock_dir w;
     slice_threshold := slice_threshold w; temp_dir := temp_dir w;
     finish_dir := finish_dir w; fresh_uuid := fresh_uuid w;
     basename := basename w; dirname := dirname w; extension := extension w;
     abspath := abspath w; url_base := url_base w; fs_exists := fs_exists w;
     fs_writable := fs_writable w; fs_rename := fs_rename w;
     fs_move := fs_move w; fs_copy2 := fs_copy2 w; fs_remove := fs_remove w;
     kb_login := kb_login w; init_analyzer := init_analyzer w;
     create_dataset := dataset; create_data := create_data w;
     upload := store |}.

Definition world_ok : world := world_of scenes_full no_faults.

(** The knowledge store refuses to create a dataset. *)
Definition world_no_dataset : world :=
  rebuild world_ok (fun _ => Raise "创建数据集失败: HTTP 500") (upload world_ok) env_up.

(** The object store refuses every upload. *)
Definition world_no_upload : world :=
  rebuild world_ok (create_dataset world_ok)
          (fun _ _ => UploadFailed "视频上传失败") env_up.

(** The description service is down. *)
Definition world_no_analysis : world :=
  rebuild world_ok (create_dataset world_ok) (upload world_ok) env_down.

(** A configuration that asks for segments of at least 0.8 s. *)
Definition cfg_tenths : Slicer.slice_config :=
  {| Slicer.output_dir := "out"; Slicer.min_duration := Some (PyFloat.ratio 8 10) |}.

(** [int] on a string of ASCII digits. *)
Definition int_of_digits (s : string) : res Z :=
  match NilZero.uint_of_string s with
  | Some n => Ok (Z.of_uint n)
  | None => Raise ("invalid literal for int() with base 10: '" +:+ s +:+ "'")
  end.

(** An object store that cannot be reached, on a machine where the local
    files are gone. *)
Definition store_unreachable : ObjectStore.store :=
  {| ObjectStore.endpoint := "minio.local";
     ObjectStore.bucket := "videos";
     ObjectStore.raw_prefix := Some "/slices/";
     ObjectStore.local_exists := fun _ => false;
     ObjectStore.local_basename := fun _ => "clip.mp4";
     ObjectStore.fput_object := fun _ _ => ObjectStore.PutRaises "connection refused" |}.

End Cases.

(** * Verification *)

(** ** Loops that append *)
Section AppendLoops.

Context {A B : Type}.

Lemma fold_left_append_if (f : A -> option B) (l : list A) (acc : list B) :
  fold_left (append_if f) l acc = acc ++ omap f l.
Proof.
  revert acc. induction l as [|x l IH]; intros acc; simpl.
  - by rewrite app_nil_r.
  - rewrite IH. unfold append_if. destruct (f x); simpl.
    + by rewrite <- app_assoc.
    + done.
Qed.

Lemma enumerate_lookup (l : list A) (s j i : nat) (x : A) :
  enumerate s l !! j = Some (i, x) ↔ i = s + j ∧ l !! j = Some x.
Proof.
  revert s j. induction l as [|y l IH]; intros s j; simpl.
  - split; [done | by intros [_ ?]].
  - destruct j as [|j]; simpl.
    + split.
      * intros [= <- <-]. split; [lia | done].
      * intros [-> [= ->]]. do 2 f_equal. lia.
    + rewrite IH. split; intros [-> ?]; split; (lia || done).
Qed.




(** Positions in a filtered-and-mapped list come from positions of the
    source list, in the same order. *)
Lemma omap_lookup_source (f : A -> option B) (l : list A) (k : nat) (b : B) :
  omap f l !! k = Some b →
  ∃ k' a, l !! k' = Some a ∧ f a = Some b ∧ k ≤ k'.
Proof.
  revert k. induction l as [|x l IH]; intros k; simpl; [done |].
  destruct (f x) as [y|] eqn:Hfx.
  - destruct k as [|k]; simpl.
    + intros [= ->]. exists 0, x. split_and!; (done || lia).
    + intros Hk. destruct (IH _ Hk) as (k' & a & ? & ? & ?).
      exists (S k'), a. split_and!; (done || lia).
  - intros Hk. destruct (IH _ Hk) as (k' & a & ? & ? & ?).
    exists (S k'), a. split_and!; (done || lia).
Qed.

Lemma omap_lookup_ordered (f : A -> option B) (l : list A) (j k : nat) (b c : B) :
  j < k → omap f l !! j = Some b → omap f l !! k = Some c →
  ∃ j' k' x y, j' < k' ∧ l !! j' = Some x ∧ l !! k' = Some y ∧
               f x = Some b ∧ f y = Some c.
Proof.
  revert j k. induction l as [|x l IH]; intros j k Hjk; simpl; [done |].
  destruct (f x) as [y|] eqn:Hfx.
  - destruct j as [|j]; simpl.
    + intros [= ->]. destruct k as [|k]; [lia |]. simpl. intros Hk.
      destruct (omap_lookup_source _ _ _ _ Hk) as (k' & a & ? & ? & ?).
      exists 0, (S k'), x, a. split_and!; (done || lia).
    + destruct k as [|k]; [lia |]. simpl. intros Hj Hk.
      destruct (IH j k ltac:(lia) Hj Hk) as (j' & k' & u & v & ? & ? & ? & ? & ?).
      exists (S j'), (S k'), u, v. split_and!; (done || lia).
  - intros Hj Hk.
    destruct (IH j k Hjk Hj Hk) as (j' & k' & u & v & ? & ? & ? & ? & ?).
    exists (S j'), (S k'), u, v. split_and!; (done || lia).
Qed.


End AppendLoops.

(** ** Python floats *)
Module PyFloatFacts.
Import PyFloat.

Lemma compare_antisym (x y : float) (c : comparison) :
  SFcompare x y = Some c → SFcompare y x = Some (CompOpp c).
Proof.
  destruct x as [sx|sx| |sx mx ex], y as [sy|sy| |sy my ey]; simpl;
    try discriminate; intros [= <-]; try (by destruct sx); try (by destruct sy);
    try (by destruct sx, sy).
  f_equal. destruct sx, sy; simpl; try done.
  - rewrite (Z.compare_antisym ex ey).
    destruct (ex ?= ey)%Z; simpl; try done.
    change (Pos.compare_cont Eq my mx) with (my ?= mx)%positive.
    change (Pos.compare_cont Eq mx my) with (mx ?= my)%positive.
    by rewrite (Pos.compare_antisym mx my), CompOpp_involutive.
  - rewrite (Z.compare_antisym ex ey).
    destruct (ex ?= ey)%Z; simpl; try done.
    change (Pos.compare_cont Eq my mx) with (my ?= mx)%positive.
    change (Pos.compare_cont Eq mx my) with (mx ?= my)%positive.
    by rewrite (Pos.compare_antisym mx my).
Qed.



Lemma geb_ltb_false (x y : float) : geb x y = true → ltb x y = false.
Proof.
  unfold ltb, geb, SFltb, SFleb.
  destruct (SFcompare y x) as [c|] eqn:Hc; [| done].
  rewrite (compare_antisym _ _ _ Hc). by destruct c.
Qed.

Lemma shr_1_nonneg (r : shr_record) :
  (0 <= shr_m r)%Z → (0 <= shr_m (shr_1 r))%Z.
Proof. destruct r as [[|[m|m|]|m] r s]; simpl; lia. Qed.

Lemma iter_shr_1_nonneg (n : positive) (r : shr_record) :
  (0 <= shr_m r)%Z → (0 <= shr_m (SpecFloat.iter_pos shr_1 n r))%Z.
Proof.
  revert r. induction n as [n IH|n IH|]; intros r Hr; simpl;
    auto using shr_1_nonneg.
Qed.

Lemma shr_fexp_nonneg (m e : Z) (l : location) :
  (0 <= m)%Z → (0 <= shr_m (fst (shr_fexp prec emax m e l)))%Z.
Proof.
  intros Hm. unfold shr_fexp, shr.
  assert (Hrec : (0 <= shr_m (shr_record_of_loc m l))%Z)
    by (by destruct l as [|[]]).
  destruct (_ - e)%Z; simpl; auto using iter_shr_1_nonneg.
Qed.

Lemma round_nearest_even_nonneg (m : Z) (l : location) :
  (0 <= m)%Z → (0 <= round_nearest_even m l)%Z.
Proof. intros Hm. destruct l as [|[]]; simpl; try destruct (Z.even m); lia. Qed.

(** Rounding a non-negative mantissa gives a zero, a finite number or an
    infinity. *)
Lemma binary_round_aux_not_nan (s : bool) (m e : Z) (l : location) :
  (0 <= m)%Z → is_nan (binary_round_aux prec emax s m e l) = false.
Proof.
  intros Hm. unfold binary_round_aux.
  pose proof (shr_fexp_nonneg m e l Hm) as H1.
  destruct (shr_fexp prec emax m e l) as [mrs' e']. simpl in H1.
  pose proof (shr_fexp_nonneg _ e' loc_Exact
                (round_nearest_even_nonneg _ (loc_of_shr_record mrs') H1)) as H2.
  destruct (shr_fexp prec emax _ e' loc_Exact) as [mrs'' e'']. simpl in H2.
  destruct (shr_m mrs''); [done | by destruct (_ <=? _)%Z | lia].
Qed.


Lemma div_core_nonneg (m1 e1 m2 e2 : Z) :
  (0 <= m1)%Z → (0 < m2)%Z →
  (0 <= fst (fst (SFdiv_core_binary prec emax m1 e1 m2 e2)))%Z.
Proof.
  intros H1 H2. unfold SFdiv_core_binary.
  match goal with
  | |- context [Z.div_eucl ?m m2] =>
      assert (Hm : (0 <= m)%Z)
        by (destruct (_ - _ - _)%Z; [done | by apply Z.shiftl_nonneg | done]);
      pose proof (Z.div_pos m m2 Hm H2) as Hq; unfold Z.div in Hq;
      destruct (Z.div_eucl m m2) as [q r]
  end.
  exact Hq.
Qed.

(** A quotient of two ints that is returned is a finite float. *)
Lemma int_true_div_finite (a b : Z) (x : float) :
  int_true_div a b = Ok x → is_finite x = true.
Proof.
  unfold int_true_div.
  destruct (Z.eqb_spec b 0) as [|Hb]; [done |].
  destruct (a =? 0)%Z; [by intros [= <-] |].
  pose proof (div_core_nonneg (Z.abs a) 0 (Z.abs b) 0 ltac:(lia) ltac:(lia)) as Hm.
  destruct (SFdiv_core_binary _ _ _ _ _ _) as [[mz ez] lz]. simpl in Hm.
  pose proof (binary_round_aux_not_nan (xorb (a <? 0)%Z (b <? 0)%Z) mz ez lz Hm)
    as Hnan.
  destruct (binary_round_aux _ _ _ _ _ _); try done; by intros [= <-].
Qed.


End PyFloatFacts.

(** ** The segmenter *)
Module SlicerFacts.
Import Slicer.

Section Loop.

Variable cfg : slice_config.
Variable ffmpeg : ffmpeg_cmd -> bool.
Variables video_path video_name parent_name : string.
Variable info : video_info.

Let step := slice_step cfg ffmpeg video_path video_name parent_name info.
Let kept := kept_segment cfg ffmpeg video_path video_name parent_name info.
Let clip := requested_clip cfg video_path video_name parent_name info.

Lemma slice_step_views (st : slicing_state) (p : nat * scene) :
  segments (step st p) = append_if kept (segments st) p ∧
  ffmpeg_runs (step st p) = append_if clip (ffmpeg_runs st) p.
Proof.
  destruct p as [i [sf ef]].
  unfold step, kept, clip, slice_step, append_if, kept_segment,
    requested_clip, scene_times; simpl.
  destruct (PyFloat.int_div sf (fps info)) as [start|e]; [| done].
  destruct (PyFloat.int_div ef (fps info)) as [stop|e]; [| done].
  destruct (PyFloat.ltb _ _); [done |].
  destruct (ffmpeg _); done.
Qed.

Lemma fold_slice_step (l : list (nat * scene)) (st : slicing_state) :
  segments (fold_left step l st) = segments st ++ omap kept l ∧
  ffmpeg_runs (fold_left step l st) = ffmpeg_runs st ++ omap clip l.
Proof.
  revert st. induction l as [|p l IH]; intros st; simpl.
  - by rewrite !app_nil_r.
  - destruct (IH (step st p)) as [-> ->].
    destruct (slice_step_views st p) as [-> ->].
    unfold append_if.
    destruct (kept p), (clip p); simpl; by rewrite <- ?app_assoc.
Qed.

Lemma slicing_loop_segments (scenes : list scene) :
  segments (slicing_loop cfg ffmpeg video_path video_name parent_name info scenes)
  = omap kept (enumerate 0 scenes).
Proof.
  destruct (fold_slice_step (enumerate 0 scenes)
              {| segments := []; ffmpeg_runs := [] |}) as [H _].
  exact H.
Qed.


Lemma requested_clip_long (p : nat * scene) (cmd : ffmpeg_cmd) :
  clip p = Some cmd →
  (∃ stop, scene_times info (snd p) = Ok (cmd_ss cmd, stop, cmd_t cmd)) ∧
  scene_duration info (snd p) = Ok (cmd_t cmd) ∧
  PyFloat.ltb (cmd_t cmd) (min_duration_or_default cfg) = false ∧
  long_enough cfg info (snd p) = true.
Proof.
  unfold clip, requested_clip, long_enough, scene_duration.
  destruct (scene_times info (snd p)) as [[[start stop] dur]|e]; [| done].
  destruct (PyFloat.ltb _ _) eqn:Hlt; [done |].
  intros [= <-]; simpl. rewrite Hlt. split_and!; eauto.
Qed.


Lemma kept_segment_inv (p : nat * scene) (seg : segment) :
  kept p = Some seg →
  index seg = fst p + 1 ∧
  start_frame seg = fst (snd p) ∧ end_frame seg = snd (snd p) ∧
  scene_times info (snd p) = Ok (start_time seg, end_time seg, duration seg) ∧
  scene_duration info (snd p) = Ok (duration seg) ∧
  PyFloat.ltb (duration seg) (min_duration_or_default cfg) = false ∧
  output_path seg = segment_output_path cfg video_name parent_name (fst p).
Proof.
  unfold kept, kept_segment.
  destruct (requested_clip _ _ _ _ _ p) as [cmd|] eqn:Hclip; [|done].
  destruct (requested_clip_long _ _ Hclip) as ([stop Htimes] & Hdur & Hlt & _).
  rewrite Htimes.
  destruct (ffmpeg cmd); [|done].
  intros [= <-]; simpl. split_and!; done.
Qed.


End Loop.

Section Claims.

Variable cfg : slice_config.
Variable ffmpeg : ffmpeg_cmd -> bool.
Variables video_path video_name parent_name : string.
Variable info : video_info.
Variable scenes : list scene.

Let st := slicing_loop cfg ffmpeg video_path video_name parent_name info scenes.





End Claims.

Import Scenario.




(** Durations are binary64 differences: the 20 frames from 50 to 70 at 25
    fps last [2.8 - 2.0 = 0.7999999999999998] s, so under a minimum of 0.8 s
    the scene is dropped and ffmpeg runs twice for the three scenes. *)
Lemma rounded_duration_falls_short :
  scene_duration info (50, 70)%Z = Ok (S754_finite false 7205759403792792 (-53)) ∧
  PyFloat.ratio 8 10 = S754_finite false 7205759403792794 (-53) ∧
  map index (si_segments (perform_slicing Cases.cfg_tenths ffmpeg_ok "in/v.mp4"
                                          "v" "in" info scenes_gap)) = [1; 3] ∧
  length (ffmpeg_runs (slicing_loop Cases.cfg_tenths ffmpeg_ok "in/v.mp4" "v"
                                    "in" info scenes_gap)) = 2.
Proof. split_and!; by vm_compute. Qed.

(** Start times are rounded quotients: two segments that start one frame
    apart can carry the same start time. *)
Lemma start_times_can_coincide :
  ∃ a b, si_segments (slicing scenes_far) = [a; b] ∧
         (start_frame a < start_frame b)%Z ∧ start_time a = start_time b.
Proof. eexists _, _. split; [vm_compute; reflexivity |]. by vm_compute. Qed.


End SlicerFacts.

(** ** The frame sampler and the segment analyzer *)
Module AnalyzerFacts.
Import Analyzer.
Import Scenario.

Lemma linspace_int_length (stop num : Z) (idxs : list Z) :
  linspace_int stop num = Ok idxs → length idxs = Z.to_nat num.
Proof.
  unfold linspace_int.
  destruct (num <? 0)%Z; [done |].
  destruct (num =? 1)%Z eqn:H1.
  - intros [= <-]. apply Z.eqb_eq in H1 as ->. done.
  - intros [= <-]. by rewrite length_map, length_seqZ.
Qed.

Lemma linspace_int_total (stop num : Z) :
  (0 <= num)%Z → ∃ idxs, linspace_int stop num = Ok idxs.
Proof.
  intros Hnum. unfold linspace_int.
  destruct (num <? 0)%Z eqn:Hneg; [apply Z.ltb_lt in Hneg; lia |].
  destruct (num =? 1)%Z; eauto.
Qed.

Lemma sampled_frames_length (cap : capture) (tmp : string) (idxs : list Z) (s : nat) :
  length (omap (sampled_frame cap tmp) (enumerate s idxs))
  = length (List.filter (cap_read cap) idxs).
Proof.
  revert s. induction idxs as [|n idxs IH]; intros s; simpl; [done |].
  unfold sampled_frame at 1; simpl.
  destruct (cap_read cap n); simpl; by rewrite <- (IH (S s)).
Qed.

Lemma sampled_frames_unopened (cap : capture) (tmp : string) (idxs : list Z) (s : nat) :
  is_opened cap = false → omap (sampled_frame cap tmp) (enumerate s idxs) = [].
Proof.
  intros Hclosed. revert s. induction idxs as [|n idxs IH]; intros s; simpl; [done |].
  unfold sampled_frame at 1, cap_read. rewrite Hclosed. simpl. apply IH.
Qed.

(** C7, as the code has it: for a frame count [K >= 0] the sampler never
    reports an error. It samples [K] positions and returns, in order, the
    frame file of each position whose read succeeded: as many files as there
    are readable sampled positions, so at most [K], and none at all for a
    clip that did not open. Only a negative [K] raises. *)
Theorem extract_frames_keeps_readable_samples (cap : capture) (tmp : string) (K : Z) :
  ((0 <= K)%Z →
   ∃ idxs,
     linspace_int (cap_frame_count cap - 1) K = Ok idxs ∧
     length idxs = Z.to_nat K ∧
     extract_frames cap tmp K
     = Ok (omap (sampled_frame cap tmp) (enumerate 0 idxs)) ∧
     length (omap (sampled_frame cap tmp) (enumerate 0 idxs))
     = length (List.filter (cap_read cap) idxs) ∧
     length (omap (sampled_frame cap tmp) (enumerate 0 idxs)) ≤ Z.to_nat K ∧
     (is_opened cap = false → extract_frames cap tmp K = Ok [])) ∧
  ((K < 0)%Z → ∃ e, extract_frames cap tmp K = Raise e).
Proof.
  split.
  - intros HK. destruct (linspace_int_total (cap_frame_count cap - 1) K HK)
      as [idxs Hidxs].
    pose proof (linspace_int_length _ _ _ Hidxs) as Hlen.
    assert (Hrun : extract_frames cap tmp K
                   = Ok (omap (sampled_frame cap tmp) (enumerate 0 idxs))).
    { unfold extract_frames. rewrite Hidxs, fold_left_append_if. done. }
    exists idxs. split_and!; try done.
    + apply sampled_frames_length.
    + rewrite sampled_frames_length, <- Hlen. apply filter_length_le.
    + intros Hclosed. by rewrite Hrun, sampled_frames_unopened.
  - intros HK. unfold extract_frames, linspace_int.
    apply Z.ltb_lt in HK. rewrite HK. eauto.
Qed.

Lemma extract_frames_keeps_readable_samples_witness :
  extract_frames clip_one_readable "/tmp/f" 2 = Ok ["/tmp/f/frame_0.jpg"] ∧
  extract_frames clip_unopened "/tmp/f" 2 = Ok [] ∧
  ∃ e, extract_frames clip_good "/tmp/f" (-1) = Raise e.
Proof.
  split; [| split].
  - destruct (proj1 (extract_frames_keeps_readable_samples
                       clip_one_readable "/tmp/f" 2)) as (idxs & Hidxs & _ & Hrun & _).
    + lia.
    + injection Hidxs as <-. exact Hrun.
  - destruct (proj1 (extract_frames_keeps_readable_samples
                       clip_unopened "/tmp/f" 2)) as (idxs & _ & _ & _ & _ & _ & Hnone).
    + lia.
    + apply Hnone. reflexivity.
  - apply (proj2 (extract_frames_keeps_readable_samples clip_good "/tmp/f" (-1))).
    lia.
Defined.

(** Two frames are asked of a clip that does not open, and of a clip of
    which one sampled frame decodes: the sampler reports no error and hands
    back zero and one frame. *)
Lemma short_sample_is_returned_silently :
  ¬ (∃ e, extract_frames clip_unopened "/tmp/f" 2 = Raise e) ∧
  ¬ (∃ e, extract_frames clip_one_readable "/tmp/f" 2 = Raise e) ∧
  extract_frames clip_unopened "/tmp/f" 2 = Ok [] ∧
  extract_frames clip_one_readable "/tmp/f" 2 = Ok ["/tmp/f/frame_0.jpg"].
Proof.
  split_and!; try reflexivity; intros [e He]; vm_compute in He; discriminate.
Qed.

(** C3, as the code has it: when the frames were sampled and encoded and
    the request fails on each of its attempts, the analyzer makes exactly
    three attempts, sleeps 2 seconds after the first failure and 4 seconds
    after the second (and does not sleep after the third), and then returns,
    as a value, a result with [success = false] whose message carries the
    error of the last attempt. *)
Theorem exhausted_retries_return_failure (e : env) (video_path title prev : string)
        (custom : option string) (sampled urls : list string) :
  extract_frames (open_capture e video_path) (mkdtemp e video_path)
                 (frames_count e) = Ok sampled →
  encode_frames e sampled = Ok urls →
  (∀ n, n < 3 → ∃ err, attempt e (request_of e title prev custom urls) n = Raise err) →
  ∃ err,
    attempt e (request_of e title prev custom urls) 2 = Raise err ∧
    analyze_video_slice e video_path title prev custom
    = ({| success := false;
          analysis_info := None;
          message := Some ("没有返回有效解析结果。[错误原因：" +:+ err +:+ "]");
          frames := Some sampled;
          audio_path := Some "";
          token_usage := 0 |},
       [ARequest 0 (request_of e title prev custom urls); ASleep 2;
        ARequest 1 (request_of e title prev custom urls); ASleep 4;
        ARequest 2 (request_of e title prev custom urls)]) ∧
    requests (snd (analyze_video_slice e video_path title prev custom)) = [0; 1; 2] ∧
    sleeps (snd (analyze_video_slice e video_path title prev custom)) = [2; 4]%Z.
Proof.
  intros Hframes Hurls Hfail.
  destruct (Hfail 0 ltac:(lia)) as [err0 H0].
  destruct (Hfail 1 ltac:(lia)) as [err1 H1].
  destruct (Hfail 2 ltac:(lia)) as [err2 H2].
  assert (Hrun : analyze_video_slice e video_path title prev custom
    = ({| success := false;
          analysis_info := None;
          message := Some ("没有返回有效解析结果。[错误原因：" +:+ err2 +:+ "]");
          frames := Some sampled;
          audio_path := Some "";
          token_usage := 0 |},
       [ARequest 0 (request_of e title prev custom urls); ASleep 2;
        ARequest 1 (request_of e title prev custom urls); ASleep 4;
        ARequest 2 (request_of e title prev custom urls)])).
  { unfold analyze_video_slice. rewrite Hframes, Hurls.
    unfold max_retries. simpl. rewrite H0. simpl. rewrite H1. simpl.
    rewrite H2. reflexivity. }
  exists err2. rewrite Hrun. split_and!; done.
Qed.

Lemma exhausted_retries_return_failure_witness :
  sleeps (snd (analyze_video_slice env_down "clip.mp4" "t" "" None)) = [2; 4]%Z ∧
  success (fst (analyze_video_slice env_down "clip.mp4" "t" "" None)) = false.
Proof.
  destruct (exhausted_retries_return_failure env_down "clip.mp4" "t" "" None
              ["/tmp/f/frame_0.jpg"; "/tmp/f/frame_1.jpg"]
              ["data:image/jpeg;base64,AAAA"; "data:image/jpeg;base64,AAAA"])
    as (err & _ & Hrun & _ & Hsleeps).
  - reflexivity.
  - reflexivity.
  - intros n _. eexists. reflexivity.
  - split; [exact Hsleeps | by rewrite Hrun].
Defined.

(** The service is down for good: three attempts are made and the waits are
    2 and 4 seconds; there is no wait of 8 seconds. *)
Lemma no_wait_after_last_attempt :
  requests (snd (analyze_video_slice env_down "clip.mp4" "t" "" None)) = [0; 1; 2] ∧
  sleeps (snd (analyze_video_slice env_down "clip.mp4" "t" "" None)) = [2; 4]%Z ∧
  sleeps (snd (analyze_video_slice env_down "clip.mp4" "t" "" None)) ≠ [2; 4; 8]%Z.
Proof. split_and!; [reflexivity | reflexivity | vm_compute; discriminate]. Qed.

End AnalyzerFacts.

(** ** The pipeline monad *)
Section Steps.

Context (P : event → Prop).

Lemma steps_ret {A : Type} (a : A) : steps P (ret a).
Proof. intros st. exists []. by rewrite app_nil_r. Qed.

Lemma steps_raise {A : Type} (e : exn) : steps P (@raise A e).
Proof. intros st. exists []. by rewrite app_nil_r. Qed.

Lemma steps_lift {A : Type} (r : res A) : steps P (lift r).
Proof. intros st. exists []. by rewrite app_nil_r. Qed.

Lemma steps_emit (ev : event) : P ev → steps P (emit ev).
Proof. intros Hev st. exists [ev]. simpl. split_and!; (done || by constructor). Qed.

Lemma steps_bind {A B : Type} (m : M A) (k : A → M B) :
  steps P m → (∀ a, steps P (k a)) → steps P (bind m k).
Proof.
  intros Hm Hk st. destruct (Hm st) as (evs1 & Ht1 & HP1 & Hl1 & Hag1).
  unfold bind. destruct (m st) as [[a|e] st1] eqn:Hmst; simpl in *.
  - destruct (Hk a st1) as (evs2 & Ht2 & HP2 & Hl2 & Hag2).
    exists (evs1 ++ evs2). split_and!.
    + by rewrite Ht2, Ht1, app_assoc.
    + by apply Forall_app.
    + by rewrite Hl2.
    + intros tbl. by rewrite Hag1, Hag2.
  - exists evs1. split_and!; try done. intros tbl. by rewrite Hag1.
Qed.

Lemma steps_for_each {A S : Type} (body : S → A → M S) (l : list A) (s : S) :
  (∀ s x, steps P (body s x)) → steps P (for_each body l s).
Proof.
  intros Hbody. revert s. induction l as [|x l IH]; intros s; simpl.
  - apply steps_ret.
  - apply steps_bind; [apply Hbody | intros s'; apply IH].
Qed.

Lemma steps_call_slice_video (w : world) (video_path : string) :
  P (EvSliceVideo video_path) → steps P (call_slice_video w video_path).
Proof.
  intros Hev st. exists [EvSliceVideo video_path].
  unfold call_slice_video. simpl.
  destruct (Slicer.slice_video _ _ _ _) as [r si]. simpl.
  split_and!; (done || by constructor).
Qed.

Lemma steps_call_get_slice_paths : steps P call_get_slice_paths.
Proof. intros st. exists []. by rewrite app_nil_r. Qed.

Lemma steps_call_analyze (w : world) (slice_path title prev : string)
      (custom : option string) :
  P (EvAnalyze slice_path title prev custom) →
  steps P (call_analyze w slice_path title prev custom).
Proof.
  intros Hev. apply steps_bind; [by apply steps_emit | intros _; apply steps_ret].
Qed.

End Steps.

(** Goals of the shape [steps P m], by the structure of [m]; loops are left
    to the caller. *)
Ltac steps_by_structure :=
  repeat first
    [ apply steps_ret | apply steps_raise | apply steps_lift
    | apply steps_call_get_slice_paths
    | apply steps_emit; done
    | apply steps_call_slice_video; done
    | apply steps_call_analyze; done
    | apply steps_bind; [| intros ?]
    | match goal with
      | |- steps _ (if ?b then _ else _) => destruct b
      | |- steps _ (match ?x with _ => _ end) => destruct x
      end ].

(** ** The resource lock and the queue-driven task *)
Module TasksFacts.
Import FileLock.
Import Tasks.

Lemma set_locks_same (st : pstate) : set_locks (locks st) st = st.
Proof. by destruct st. Qed.

Lemma on_fault_contention (f : fault) :
  on_fault f = (negb (is_contention f), None).
Proof. destruct f as [errno|msg]; simpl; [|done]. by destruct (_ || _). Qed.

(** What [acquire_file_lock] returns, by the first fault it meets. *)
Lemma acquire_file_lock_spec (os : os_faults) (me : nat) (dir name : string)
      (tbl : lock_table) :
  acquire_file_lock os me dir name tbl =
  match first_fault os (lock_file_path dir name) tbl with
  | Some f => ((negb (is_contention f), None), tbl)
  | None =>
      ((true, Some {| lf_path := lock_file_path dir name; lf_owner := me |}),
       <[lock_file_path dir name := me]> tbl)
  end.
Proof.
  unfold acquire_file_lock, first_fault.
  destruct (open_fault os _) as [f|]; [by rewrite on_fault_contention |].
  destruct (tbl !! _) eqn:Hheld; [done |].
  destruct (flock_fault os _) as [f|]; [by rewrite on_fault_contention |].
  destruct (write_fault os _) as [f|]; [|done].
  by rewrite on_fault_contention, delete_insert_id.
Qed.

(** An iteration of the task's loop hands the carried text to the analyzer,
    appends no release event and leaves the lock table alone. *)
Lemma slice_body_steps (w : world) (video_name uuid dataset_id : string)
      (custom : option string) (total : nat) (prev : string) (p : nat * string) :
  steps (λ ev, is_release ev = false ∧
               match ev with
               | EvAnalyze _ _ prev' _ => prev' = prev
               | _ => True
               end)
        (slice_body w video_name uuid dataset_id custom total prev p).
Proof. destruct p as [idx slice_path]. unfold slice_body. steps_by_structure. Qed.

(** What an iteration hands on to the next one: the text of its own
    analysis when the segment was uploaded and analysed, the text it
    received otherwise. *)
Lemma slice_body_hands_on (w : world) (video_name uuid dataset_id : string)
      (custom : option string) (total : nat) (prev : string)
      (idx : nat) (slice_path : string) (st st' : pstate) (next : string) :
  slice_body w video_name uuid dataset_id custom total prev (idx, slice_path) st
  = (Ok next, st') →
  next =
  match upload w slice_path (uuid +:+ "/slice_" +:+ show_nat idx +:+ ".mp4") with
  | UploadFailed _ => prev
  | Uploaded _ =>
      match Analyzer.analysis_info
              (fst (Analyzer.analyze_video_slice (analyzer_env w) slice_path
                      video_name prev custom)) with
      | Some ai =>
          if Analyzer.success
               (fst (Analyzer.analyze_video_slice (analyzer_env w) slice_path
                       video_name prev custom))
          then Analyzer.analysis_result ai
          else prev
      | None => prev
      end
  end.
Proof.
  unfold slice_body, call_analyze, analysis_text, bind, emit, lift, ret. simpl.
  destruct (upload w _ _) as [url|err]; simpl; [| by intros [= <- _]].
  destruct (Analyzer.analyze_video_slice _ _ _ _ _) as [ar log]; simpl.
  destruct (Analyzer.success ar); simpl.
  - destruct (Analyzer.analysis_info ar) as [ai|]; simpl; [| done].
    destruct (create_data w _ _ _); simpl; [| done]. by intros [= <- _].
  - destruct (Analyzer.analysis_info ar); by intros [= <- _].
Qed.

Lemma steps_weaken {A : Type} (P Q : event → Prop) (m : M A) :
  (∀ ev, P ev → Q ev) → steps P m → steps Q m.
Proof.
  intros HPQ Hm st. destruct (Hm st) as (evs & ? & HP & ? & ?).
  exists evs. split_and!; try done. eapply Forall_impl; eauto.
Qed.

(** The body of the task appends no release event, leaves the lock table
    alone and does not depend on it. *)
Lemma task_body_steps (w : world) (args : task_args) (video_name uuid : string) :
  steps (λ ev, is_release ev = false) (task_body w args video_name uuid).
Proof.
  unfold task_body. steps_by_structure.
  apply steps_for_each. intros prev p.
  eapply steps_weaken; [| apply slice_body_steps]. by intros ev [? _].
Qed.

(** C8: while another holder has the lock of a video, acquiring it fails at
    once, the lock stays where it is, and the task returns ['skipped']
    having done nothing: no event is logged and no state is touched. (Opening
    the lock file works, or fails as a held lock does.) *)
Theorem held_lock_skips_task (w : world) (me : nat) (args : task_args)
        (st : pstate) (holder : nat) :
  (∀ f, open_fault (lock_faults w) (lock_path_of w args) = Some f →
        is_contention f = true) →
  locks st !! lock_path_of w args = Some holder →
  acquire_file_lock (lock_faults w) me (lock_dir w)
                    (lock_name_of (video_name_of w args)) (locks st)
  = ((false, None), locks st) ∧
  status (fst (process_video_task w me args st)) = "skipped" ∧
  snd (process_video_task w me args st) = st.
Proof.
  intros Hopen Hheld.
  assert (Hacq : acquire_file_lock (lock_faults w) me (lock_dir w)
                   (lock_name_of (video_name_of w args)) (locks st)
                 = ((false, None), locks st)).
  { rewrite acquire_file_lock_spec. unfold first_fault.
    unfold lock_path_of in Hopen, Hheld.
    destruct (open_fault _ _) as [f|].
    - by rewrite (Hopen f eq_refl).
    - by rewrite Hheld. }
  split; [done |].
  unfold process_video_task. rewrite Hacq. simpl.
  split; [done | apply set_locks_same].
Qed.


Import Scenario.

Lemma held_lock_skips_task_witness :
  status (fst (process_video_task (world_of scenes_full no_faults) 1 args st_held))
  = "skipped" ∧
  snd (process_video_task (world_of scenes_full no_faults) 1 args st_held) = st_held.
Proof.
  apply (held_lock_skips_task (world_of scenes_full no_faults) 1 args st_held 7).
  - intros f Hf. vm_compute in Hf. discriminate Hf.
  - vm_compute. reflexivity.
Defined.

(** While worker 7 holds the lock of [v.mp4], opening the lock file fails
    with [EIO]: the task is not skipped. It runs to ['success'] and uploads,
    analyses and ingests both segments. *)
Lemma held_lock_with_open_error_runs_task :
  locks st_held !! lock_path_of (world_of scenes_full open_eio) args = Some 7 ∧
  status (fst (process_video_task (world_of scenes_full open_eio) 1 args st_held))
  ≠ "skipped" ∧
  status (fst (process_video_task (world_of scenes_full open_eio) 1 args st_held))
  = "success" ∧
  length (List.filter is_segment_work
            (trace (snd (process_video_task (world_of scenes_full open_eio) 1
                                            args st_held)))) = 6.
Proof. split_and!; [by vm_compute | by vm_compute | by vm_compute | by vm_compute]. Qed.


End TasksFacts.

(** ** The pipelines and the batch orchestrator *)
Module PipelineFacts.
Import Scenario.

(** In [main.py] the analyzer is always called with an empty previous
    text, whatever the segments before it produced. *)
Lemma main_video_body_unchained (w : world) (video_path video_name uuid : string) :
  steps (λ ev, match ev with
               | EvAnalyze _ _ prev _ => prev = ""
               | _ => True
               end)
        (Main.video_body w video_path video_name uuid).
Proof.
  unfold Main.video_body, Main.rename_source. steps_by_structure.
  apply steps_for_each. intros pre [idx slice_path].
  unfold Main.slice_body. steps_by_structure.
Qed.

(** C1 at a video of two scenes, both analysed with success. The first
    analysis returns a non-empty text. The queue-driven task hands that text
    to the analysis of the second segment; [process_single_video] hands it
    the empty string. *)
Theorem main_pipeline_drops_continuity :
  Analyzer.analysis_info
    (fst (Analyzer.analyze_video_slice env_up "out/in/v_segment_1.mp4" "v.mp4" "" None))
  = Some {| Analyzer.ai_video_path := "out/in/v_segment_1.mp4";
            Analyzer.analysis_result := "a car drives";
            Analyzer.ai_token_usage := 7 |} ∧
  analysis_inputs
    (trace (snd (Main.process_single_video (world_of scenes_full no_faults)
                                           "in/v.mp4" st0)))
  = [("out/in/v_segment_1.mp4", ""); ("out/in/v_segment_2.mp4", "")] ∧
  analysis_inputs
    (trace (snd (Tasks.process_video_task (world_of scenes_full no_faults) 1
                                          args st0)))
  = [("out/in/v_segment_1.mp4", ""); ("out/in/v_segment_2.mp4", "a car drives")].
Proof. split_and!; vm_compute; reflexivity. Qed.

(** C2 at a video in which the detector finds no cut: the segment list is
    empty, both pipelines report success, and neither uploads, analyses or
    ingests anything. *)
Theorem zero_cuts_nothing_ingested :
  Slicer.si_segments (Scenario.slicing []) = [] ∧
  fst (Tasks.process_video_task (world_of [] no_faults) 1 args st0)
  = Tasks.Success "v.mp4" "uuid0" "ds-uuid0" 0 ∧
  List.filter is_segment_work
    (trace (snd (Tasks.process_video_task (world_of [] no_faults) 1 args st0)))
  = [] ∧
  fst (Main.process_single_video (world_of [] no_faults) "in/v.mp4" st0)
  = Ok (Main.VSuccess "v.mp4" "ds-uuid0" 5) ∧
  List.filter is_segment_work
    (trace (snd (Main.process_single_video (world_of [] no_faults) "in/v.mp4" st0)))
  = [].
Proof. split_and!; vm_compute; reflexivity. Qed.

(** [len(slices.slice_info)] is the number of keys of the dict, whatever the
    number of segments. *)
Lemma len_slice_info_is_five (slices : Slicer.SliceResult) (n : nat) :
  Main.len_slice_info slices = Ok n → n = 5.
Proof.
  unfold Main.len_slice_info. destruct (Slicer.sr_slice_info slices); [|done].
  by intros [= <-].
Qed.

(** C5 at a video of six segments: the progress written during the loop is
    [50 + idx/5*50], it reaches 100 at the fifth segment and 110 at the
    sixth, and falls back to 100 on completion. *)
Theorem six_segments_progress_overshoots :
  length (analysis_inputs
            (trace (snd (Main.process_single_video
                           (world_of scenes_six no_faults) "in/v.mp4" st0)))) = 6 ∧
  fst (Main.process_single_video (world_of scenes_six no_faults) "in/v.mp4" st0)
  = Ok (Main.VSuccess "v.mp4" "ds-uuid0" 5) ∧
  map Qred (Main.progress_log
              (trace (snd (Main.process_single_video
                             (world_of scenes_six no_faults) "in/v.mp4" st0))))
  = [0; 35; 50; 60; 70; 80; 90; 100; 110; 100]%Q.
Proof. split_and!; vm_compute; reflexivity. Qed.

Section BatchFacts.

Variable run : string → nat → res Main.video_result.
Variable max_retries : nat.

(** A run of the batch whose first video succeeded records that video and
    looks no further. *)
Lemma scan_batch_first_success (retry : nat) (video : string)
      (r : Main.video_result) (rest : list (string * res Main.video_result))
      (results : list Main.video_result) :
  Main.scan_batch max_retries retry ((video, Ok r) :: rest) results
  = results ++ [r].
Proof. done. Qed.

(** When the first video of a batch succeeds in every run, the batch
    contributes one entry per run, all for that video. *)
Lemma first_video_recorded_every_run (video : string) (rest : list string)
      (results : list Main.video_result) :
  (∀ retry, ∃ r, run video retry = Ok r) →
  ∃ rs, Main.retry_batch run max_retries (video :: rest) results = results ++ rs ∧
        length rs = max_retries ∧
        ∀ k r, rs !! k = Some r → run video k = Ok r.
Proof.
  intros Hok. unfold Main.retry_batch.
  assert (Hstep : ∀ retry acc r, run video retry = Ok r →
    Main.scan_batch max_retries retry
      (zip (video :: rest) (Main.process_batch run (video :: rest) retry)) acc
    = acc ++ [r]).
  { intros retry acc r Hr. simpl. by rewrite Hr. }
  assert (Hgen : ∀ n s acc,
    ∃ rs, fold_left
            (λ results retry,
               Main.scan_batch max_retries retry
                 (zip (video :: rest) (Main.process_batch run (video :: rest) retry))
                 results)
            (seq s n) acc = acc ++ rs ∧
          length rs = n ∧ ∀ k r, rs !! k = Some r → run video (s + k) = Ok r).
  { induction n as [|n IH]; intros s acc; cbn [seq fold_left].
    - exists []. by rewrite app_nil_r.
    - destruct (Hok s) as [r Hr]. rewrite (Hstep _ acc _ Hr).
      destruct (IH (S s) (acc ++ [r])) as (rs & -> & Hlen & Hrs).
      exists (r :: rs). split_and!.
      + by rewrite <- app_assoc.
      + simpl. by rewrite Hlen.
      + intros [|k] r'; simpl.
        * intros [= <-]. by rewrite Nat.add_0_r.
        * intros Hk. rewrite <- Nat.add_succ_comm. by apply Hrs. }
  destruct (Hgen max_retries 0 results) as (rs & Heq & Hlen & Hrs).
  exists rs. split_and!; done.
Qed.

End BatchFacts.

(** C6 at three batches. Two videos that always succeed, three retries: the
    first video is recorded three times and the second never. The same two
    videos when a second run finds the source file gone: the first is
    recorded as succeeded and as failed, the second only as failed. Five
    videos of which the third fails twice and then succeeds: only the first
    video is recorded. *)
Theorem batch_records_first_success_per_run :
  Main.results_of
    (Main.process_all_videos_batch (Ok tt) run_ok 10 3 ["a.mp4"; "b.mp4"])
  = [Main.VSuccess "a.mp4" "ds-a.mp4" 5; Main.VSuccess "a.mp4" "ds-a.mp4" 5;
     Main.VSuccess "a.mp4" "ds-a.mp4" 5] ∧
  Main.results_of
    (Main.process_all_videos_batch (Ok tt) run_once 10 3 ["a.mp4"; "b.mp4"])
  = [Main.VSuccess "a.mp4" "ds-a.mp4" 5;
     Main.VFailed "a.mp4" "源文件不存在: a.mp4";
     Main.VFailed "b.mp4" "源文件不存在: b.mp4"] ∧
  Main.entries_for "3.mp4"
    (Main.results_of
       (Main.process_all_videos_batch (Ok tt) run_third_flaky 5 3
          ["1.mp4"; "2.mp4"; "3.mp4"; "4.mp4"; "5.mp4"]))
  = [] ∧
  length (Main.entries_for "1.mp4"
    (Main.results_of
       (Main.process_all_videos_batch (Ok tt) run_third_flaky 5 3
          ["1.mp4"; "2.mp4"; "3.mp4"; "4.mp4"; "5.mp4"])))
  = 3.
Proof. split_and!; vm_compute; reflexivity. Qed.

End PipelineFacts.

(** * More of the code *)

(** ** Strings *)
Section StringFacts.

Lemma string_app_cons (x : Ascii.ascii) (a b : string) :
  String x a +:+ b = String x (a +:+ b).
Proof. reflexivity. Qed.

Lemma string_length_app (a b : string) :
  String.length (a +:+ b) = String.length a + String.length b.
Proof.
  induction a as [|c a IH]; [done |].
  rewrite string_app_cons. simpl. by rewrite IH.
Qed.

Lemma string_app_assoc (a b c : string) : (a +:+ b) +:+ c = a +:+ (b +:+ c).
Proof.
  induction a as [|x a IH]; [done |]. by rewrite !string_app_cons, IH.
Qed.

Lemma string_app_nil_r (a : string) : a +:+ "" = a.
Proof. induction a as [|x a IH]; [done |]. by rewrite string_app_cons, IH. Qed.

Lemma string_app_inv_l (a b c : string) : a +:+ b = a +:+ c → b = c.
Proof.
  induction a as [|x a IH]; [done |]. rewrite !string_app_cons.
  intros [= H]. by apply IH.
Qed.

(** Two strings that agree after equally long heads. *)
Lemma string_app_inv_same_length (a b c d : string) :
  String.length a = String.length b → a +:+ c = b +:+ d → a = b ∧ c = d.
Proof.
  revert b. induction a as [|x a IH]; intros [|y b]; try done.
  rewrite !string_app_cons. simpl.
  intros [= Hlen] [= -> H]. destruct (IH b Hlen H) as [-> ->]. done.
Qed.

Lemma string_app_inv_r (a b c : string) : a +:+ c = b +:+ c → a = b.
Proof.
  intros H. apply (string_app_inv_same_length a b c c); [|done].
  apply (f_equal String.length) in H. rewrite !string_length_app in H. lia.
Qed.

(** Printing a number and reading it back. *)
Lemma show_nat_read (n : nat) :
  option_map Nat.of_uint (NilEmpty.uint_of_string (show_nat n)) = Some n.
Proof.
  unfold show_nat. rewrite NilEmpty.usu. simpl. by rewrite Unsigned.of_to.
Qed.

Lemma show_nat_inj (n m : nat) : show_nat n = show_nat m → n = m.
Proof.
  intros H. pose proof (show_nat_read n) as Hn. rewrite H, show_nat_read in Hn.
  by injection Hn.
Qed.

End StringFacts.

(** ** The segmenter, continued *)
Module SlicerMore.
Import Slicer.
Import Probe.

Lemma unpack_two_ints_ok (py_int : string → res Z) (parts : list string)
      (num den : Z) :
  unpack_two_ints py_int parts = Ok (num, den) →
  ∃ a b, parts = [a; b] ∧ py_int a = Ok num ∧ py_int b = Ok den.
Proof.
  unfold unpack_two_ints.
  destruct parts as [|a [|b [|c rest]]]; [done | by destruct (py_int a) | |].
  - destruct (py_int a) as [n|] eqn:Ha; [| done].
    destruct (py_int b) as [d|] eqn:Hb; [| done].
    intros [= <- <-]. eauto.
  - destruct (py_int a); [| done]. destruct (py_int b); [| done].
    by destruct (py_int c).
Qed.

(** [_get_video_duration] re-raises what the call of ffprobe raised. When
    it returns, the frame-rate string had exactly two parts around one
    slash, both read as ints, with a denominator that is not zero; the frame
    rate is their binary64 quotient, a finite float that is not zero, the
    frame count is the int read from [nb_frames] and the duration is
    [frame_count / fps]. With such a frame rate the slicing loop meets no
    [ZeroDivisionError]: it computes the duration of every scene whose
    frame numbers fit in a float. *)
Theorem probe_gives_usable_rate (run_ffprobe : string → ffprobe_answer)
        (py_int : string → res Z) (video_path : string) :
  (∀ e, run_ffprobe video_path = FfprobeFails e →
        get_video_duration run_ffprobe py_int video_path = Raise e) ∧
  ∀ info, get_video_duration run_ffprobe py_int video_path = Ok info →
    (∃ fps_str nb_frames num den fps_num fps_den,
        run_ffprobe video_path = FfprobeStream fps_str nb_frames ∧
        split_on "/" fps_str = [num; den] ∧
        py_int num = Ok fps_num ∧ py_int den = Ok fps_den ∧
        fps_den ≠ 0%Z ∧
        PyFloat.int_true_div fps_num fps_den = Ok (fps info) ∧
        py_int nb_frames = Ok (frame_count info)) ∧
    PyFloat.int_div (frame_count info) (fps info) = Ok (total_duration info) ∧
    PyFloat.is_finite (fps info) = true ∧
    PyFloat.is_zero (fps info) = false ∧
    ∀ sc start stop,
      PyFloat.of_int (fst sc) = Ok start → PyFloat.of_int (snd sc) = Ok stop →
      ∃ dur, scene_duration info sc = Ok dur.
Proof.
  unfold get_video_duration. split.
  - by intros e ->.
  - intros info.
    destruct (run_ffprobe video_path) as [e|fps_str nb_frames]; [done |].
    destruct (unpack_two_ints py_int _) as [[fps_num fps_den]|e] eqn:Hparts;
      [| done].
    apply unpack_two_ints_ok in Hparts as (num & den & Hsplit & Hnum & Hden).
    destruct (PyFloat.int_true_div fps_num fps_den) as [rate|e] eqn:Hrate;
      [| done].
    destruct (py_int nb_frames) as [count|e] eqn:Hcount; [| done].
    destruct (PyFloat.int_div count rate) as [dur|e] eqn:Hdur; [| done].
    intros [= <-]. simpl.
    assert (Hzero : PyFloat.is_zero rate = false).
    { unfold PyFloat.int_div in Hdur. destruct (PyFloat.of_int count); [| done].
      by destruct (PyFloat.is_zero rate). }
    split_and!; try done.
    + exists fps_str, nb_frames, num, den, fps_num, fps_den.
      split_and!; try done.
      intros ->. unfold PyFloat.int_true_div in Hrate. by simpl in Hrate.
    + by eapply PyFloatFacts.int_true_div_finite.
    + intros sc start stop Hstart Hstop.
      unfold scene_duration, scene_times, PyFloat.int_div. simpl.
      rewrite Hstart, Hstop, Hzero. eauto.
Qed.

Lemma probe_gives_usable_rate_witness :
  ∃ info, get_video_duration (fun _ => FfprobeStream "30000/1001" "300")
                             Cases.int_of_digits "in/v.mp4" = Ok info ∧
          frame_count info = 300%Z ∧ PyFloat.is_zero (fps info) = false.
Proof.
  destruct (probe_gives_usable_rate (fun _ => FfprobeStream "30000/1001" "300")
              Cases.int_of_digits "in/v.mp4") as [_ Hinfo].
  eexists. split; [vm_compute; reflexivity |].
  edestruct Hinfo as (_ & _ & _ & Hzero & _); [vm_compute; reflexivity |].
  split; [reflexivity | exact Hzero].
Defined.

Lemma kept_segment_path cfg ffmpeg video_path video_name parent_name info
      (p : nat * scene) (seg : segment) :
  kept_segment cfg ffmpeg video_path video_name parent_name info p = Some seg →
  output_path seg = segment_output_path cfg video_name parent_name (fst p).
Proof.
  intros Hkept.
  by destruct (SlicerFacts.kept_segment_inv _ _ _ _ _ _ _ _ Hkept)
    as (_ & _ & _ & _ & _ & _ & ?).
Qed.

Lemma segment_output_path_inj cfg video_name parent_name (i j : nat) :
  segment_output_path cfg video_name parent_name i
  = segment_output_path cfg video_name parent_name j → i = j.
Proof.
  unfold segment_output_path, path_join. intros H.
  do 4 apply string_app_inv_l in H.
  apply string_app_inv_r, show_nat_inj in H. lia.
Qed.

(** No two segments of a slicing share a clip file: their paths are
    pairwise distinct, so no clip is overwritten by a later one. *)
Theorem clip_paths_are_distinct cfg ffmpeg video_path video_name parent_name
        info (scenes : list scene) :
  NoDup (map output_path
             (si_segments (perform_slicing cfg ffmpeg video_path video_name
                                           parent_name info scenes))).
Proof.
  simpl. rewrite SlicerFacts.slicing_loop_segments.
  apply NoDup_alt. intros i j path Hi Hj.
  rewrite list_lookup_fmap in Hi, Hj.
  destruct (omap _ _ !! i) as [a|] eqn:Ha; [|done].
  destruct (omap _ _ !! j) as [b|] eqn:Hb; [|done].
  simpl in Hi, Hj. injection Hi as Hi. injection Hj as Hj.
  assert (Hlt : ∀ i j a b, i < j →
    omap (kept_segment cfg ffmpeg video_path video_name parent_name info)
         (enumerate 0 scenes) !! i = Some a →
    omap (kept_segment cfg ffmpeg video_path video_name parent_name info)
         (enumerate 0 scenes) !! j = Some b →
    output_path a ≠ output_path b).
  { clear. intros i j a b Hij Ha Hb Heq.
    destruct (omap_lookup_ordered _ _ _ _ _ _ Hij Ha Hb)
      as (i' & j' & [n s] & [m t] & Hlt & Hl1 & Hl2 & Hf1 & Hf2).
    apply enumerate_lookup in Hl1 as [-> _].
    apply enumerate_lookup in Hl2 as [-> _].
    rewrite (kept_segment_path _ _ _ _ _ _ _ _ Hf1) in Heq.
    rewrite (kept_segment_path _ _ _ _ _ _ _ _ Hf2) in Heq.
    apply segment_output_path_inj in Heq. simpl in Heq. lia. }
  destruct (Nat.lt_trichotomy i j) as [Hij | [-> | Hji]]; [| done |].
  - exfalso. apply (Hlt i j a b Hij Ha Hb). congruence.
  - exfalso. apply (Hlt j i b a Hji Hb Ha). congruence.
Qed.

(** A [slice_video] that fails leaves the slicer's [slice_info] as it was:
    [get_slice_paths] and [get_slice_count] then still answer for the video
    sliced before (or raise when there was none). *)
Theorem failed_slicing_keeps_previous_segments (w : world) (video_path : string)
        (st : pstate) :
  sr_success (fst (slice_video (slicer_env w) (slicer_info st) video_path
                               (slice_threshold w))) = false →
  sr_slice_info (fst (slice_video (slicer_env w) (slicer_info st) video_path
                                  (slice_threshold w))) = None ∧
  snd (slice_video (slicer_env w) (slicer_info st) video_path (slice_threshold w))
  = slicer_info st ∧
  fst ((call_slice_video w video_path ;;; call_get_slice_paths) st)
  = get_slice_paths (slicer_info st) ∧
  get_slice_count
    (slicer_info (snd ((call_slice_video w video_path ;;; call_get_slice_paths) st)))
  = get_slice_count (slicer_info st).
Proof.
  unfold bind, call_slice_video, call_get_slice_paths, slice_video.
  destruct (path_exists _ _); simpl; [| done].
  destruct (probe _ _); simpl; [| done].
  destruct (detect _ _ _); simpl; done.
Qed.

Lemma failed_slicing_keeps_previous_segments_witness :
  fst ((call_slice_video Cases.world_missing "/tmp/work/uuid0.mp4" ;;;
        call_get_slice_paths) Cases.st_used)
  = Ok ["out/in/old_segment_1.mp4"; "out/in/old_segment_2.mp4"].
Proof.
  destruct (failed_slicing_keeps_previous_segments Cases.world_missing
              "/tmp/work/uuid0.mp4" Cases.st_used) as (_ & _ & Hpaths & _).
  - reflexivity.
  - rewrite Hpaths. reflexivity.
Defined.

End SlicerMore.

(** ** The frame sampler and the analyzer, continued *)
Module AnalyzerMore.
Import Analyzer.

Lemma linspace_int_lookup (stop num : Z) (idxs : list Z) (i : nat) (v : Z) :
  (2 <= num)%Z → linspace_int stop num = Ok idxs →
  idxs !! i = Some v ↔
  (Z.of_nat i < num)%Z ∧
  v = if (Z.of_nat i =? num - 1)%Z then stop
      else (Z.of_nat i * stop / (num - 1))%Z.
Proof.
  intros Hnum. unfold linspace_int.
  destruct (num <? 0)%Z eqn:Hneg; [apply Z.ltb_lt in Hneg; lia |].
  destruct (num =? 1)%Z eqn:Hone; [apply Z.eqb_eq in Hone; lia |].
  intros [= <-]. rewrite list_lookup_fmap.
  destruct (seqZ 0 num !! i) as [z|] eqn:Hz; simpl.
  - apply lookup_seqZ in Hz as [-> Hlt]. rewrite Z.add_0_l.
    split; [intros [= <-]; done | intros [_ ->]; done].
  - split; [done |]. intros [Hlt _].
    rewrite lookup_seqZ_lt in Hz by lia. done.
Qed.

Lemma linspace_int_value_bounds (stop num : Z) (i : nat) :
  (0 <= stop)%Z → (2 <= num)%Z → (Z.of_nat i < num)%Z →
  (0 <= (if (Z.of_nat i =? num - 1)%Z then stop
         else Z.of_nat i * stop / (num - 1)) <= stop)%Z.
Proof.
  intros Hstop Hnum Hi. destruct (Z.of_nat i =? num - 1)%Z eqn:Hlast; [lia |].
  apply Z.eqb_neq in Hlast. split.
  - apply Z.div_pos; nia.
  - apply Z.div_le_upper_bound; nia.
Qed.

(** The positions the sampler reads, for a clip of at least one frame
    ([stop] is its last position) and at least two frames asked: the first
    is 0, the last is [stop], all lie within the clip and they never go
    back. *)
Theorem sampled_positions_span_clip (stop num : Z) (idxs : list Z) :
  (0 <= stop)%Z → (2 <= num)%Z → linspace_int stop num = Ok idxs →
  length idxs = Z.to_nat num ∧
  idxs !! 0 = Some 0%Z ∧
  idxs !! (Z.to_nat (num - 1)) = Some stop ∧
  (∀ i v, idxs !! i = Some v → (0 <= v <= stop)%Z) ∧
  (∀ i j a b, i ≤ j → idxs !! i = Some a → idxs !! j = Some b → (a <= b)%Z).
Proof.
  intros Hstop Hnum Hrun. split_and!.
  - by apply AnalyzerFacts.linspace_int_length in Hrun.
  - apply (linspace_int_lookup _ _ _ _ _ Hnum Hrun). split; [lia |].
    destruct (Z.of_nat 0 =? num - 1)%Z eqn:H; [apply Z.eqb_eq in H; lia | done].
  - apply (linspace_int_lookup _ _ _ _ _ Hnum Hrun). split; [lia |].
    rewrite (proj2 (Z.eqb_eq _ _)) by lia. done.
  - intros i v Hv. apply (linspace_int_lookup _ _ _ _ _ Hnum Hrun) in Hv as [Hi ->].
    by apply linspace_int_value_bounds.
  - intros i j a b Hij Ha Hb.
    apply (linspace_int_lookup _ _ _ _ _ Hnum Hrun) in Ha as [Hi ->].
    apply (linspace_int_lookup _ _ _ _ _ Hnum Hrun) in Hb as [Hj ->].
    destruct (Z.of_nat j =? num - 1)%Z eqn:Hjl.
    + by apply linspace_int_value_bounds.
    + apply Z.eqb_neq in Hjl.
      destruct (Z.of_nat i =? num - 1)%Z eqn:Hil; [apply Z.eqb_eq in Hil; lia |].
      apply Z.div_le_mono; nia.
Qed.

Lemma sampled_positions_span_clip_witness :
  linspace_int 9 4 = Ok [0; 3; 6; 9]%Z ∧
  [0; 3; 6; 9]%Z !! 3 = Some 9%Z.
Proof.
  split; [reflexivity |].
  by destruct (sampled_positions_span_clip 9 4 [0; 3; 6; 9]%Z
                 ltac:(lia) ltac:(lia) eq_refl) as (_ & _ & ? & _).
Defined.

Lemma sampled_frames_all (cap : capture) (tmp : string) (idxs : list Z) (s : nat) :
  Forall (λ n, cap_read cap n = true) idxs →
  omap (sampled_frame cap tmp) (enumerate s idxs)
  = map (frame_path tmp) (seq s (length idxs)).
Proof.
  intros Hall. revert s. induction Hall as [|n idxs Hn _ IH]; intros s; [done |].
  simpl. unfold sampled_frame at 1. simpl. rewrite Hn. simpl. by rewrite IH.
Qed.

(** A clip of at least one frame whose frames all decode yields exactly the
    [K] frame files asked for, [frame_0.jpg] to [frame_(K-1).jpg]. *)
Theorem decodable_clip_gives_all_frames (cap : capture) (tmp : string) (K : Z) :
  (0 <= K)%Z → (1 <= cap_frame_count cap)%Z →
  (∀ n, (0 <= n < cap_frame_count cap)%Z → cap_read cap n = true) →
  extract_frames cap tmp K = Ok (map (frame_path tmp) (seq 0 (Z.to_nat K))).
Proof.
  intros HK Hcount Hread.
  destruct (AnalyzerFacts.linspace_int_total (cap_frame_count cap - 1) K HK)
    as [idxs Hidxs].
  pose proof (AnalyzerFacts.linspace_int_length _ _ _ Hidxs) as Hlen.
  unfold extract_frames. rewrite Hidxs, fold_left_append_if. f_equal.
  rewrite <- Hlen. apply sampled_frames_all.
  apply Forall_lookup. intros i v Hv. apply Hread.
  destruct (Z_lt_le_dec K 2) as [Hsmall | Hbig].
  - unfold linspace_int in Hidxs.
    destruct (K <? 0)%Z eqn:Hneg; [apply Z.ltb_lt in Hneg; lia |].
    destruct (K =? 1)%Z eqn:Hone.
    + injection Hidxs as <-. destruct i; [| done]. injection Hv as <-. lia.
    + apply Z.eqb_neq in Hone. assert (K = 0%Z) as -> by lia.
      injection Hidxs as <-. done.
  - assert (0 <= v <= cap_frame_count cap - 1)%Z; [| lia].
    apply (linspace_int_lookup _ _ _ _ _ Hbig Hidxs) in Hv as [Hi ->].
    apply linspace_int_value_bounds; lia.
Qed.

Lemma decodable_clip_gives_all_frames_witness :
  extract_frames Scenario.clip_good "/tmp/f" 3
  = Ok ["/tmp/f/frame_0.jpg"; "/tmp/f/frame_1.jpg"; "/tmp/f/frame_2.jpg"].
Proof.
  apply (decodable_clip_gives_all_frames Scenario.clip_good "/tmp/f" 3).
  - lia.
  - vm_compute. discriminate.
  - intros n _. reflexivity.
Defined.

Lemma attempt_content (e : env) (rq : request) (n : nat) (content : string) (tokens : Z) :
  attempt e rq n = Ok (content, tokens) → content ≠ "".
Proof.
  unfold attempt. destruct (chat_create e rq n) as [err|r]; [done |].
  destruct (response_content r) as [c|err] eqn:Hc; [|done].
  destruct (response_tokens r); [|done]. intros [= <- _].
  unfold response_content in Hc.
  destruct r as [[[|[c'|] rest] u]|]; try done.
  destruct (String.eqb c' "") eqn:Heq; [done |].
  injection Hc as <-. by apply String.eqb_neq.
Qed.

Lemma api_loop_consistent (e : env) (video_path : string) (sampled : list string)
      (rq : request) (remaining retry_count : nat) (last_error : option exn)
      (log : list aevent) :
  let r := fst (api_loop e video_path sampled rq remaining retry_count
                         last_error log) in
  (success r = true →
   ∃ ai, analysis_info r = Some ai ∧ analysis_result ai ≠ "" ∧
         ai_video_path ai = video_path ∧ message r = Some "分析完成") ∧
  (success r = false → analysis_info r = None ∧ ∃ msg, message r = Some msg).
Proof.
  revert retry_count last_error log.
  induction remaining as [|remaining IH]; intros retry_count last_error log; simpl.
  - split; [done | eauto].
  - destruct (attempt e rq retry_count) as [[content tokens]|err] eqn:Hatt; simpl.
    + split; [| done]. intros _. eexists. split_and!; try done.
      simpl. by eapply attempt_content.
    + apply IH.
Qed.

(** Whatever the collaborators do, the result of the analyzer is
    consistent: with [success] it carries an [analysis_info] for the clip
    whose text is not empty, without [success] it carries no
    [analysis_info] and an error message. *)
Theorem analysis_result_is_consistent (e : env) (video_path title prev : string)
        (custom : option string) :
  (success (fst (analyze_video_slice e video_path title prev custom)) = true →
   ∃ ai, analysis_info (fst (analyze_video_slice e video_path title prev custom))
         = Some ai ∧
         analysis_result ai ≠ "" ∧ ai_video_path ai = video_path ∧
         message (fst (analyze_video_slice e video_path title prev custom))
         = Some "分析完成") ∧
  (success (fst (analyze_video_slice e video_path title prev custom)) = false →
   analysis_info (fst (analyze_video_slice e video_path title prev custom)) = None ∧
   ∃ msg, message (fst (analyze_video_slice e video_path title prev custom))
          = Some msg).
Proof.
  unfold analyze_video_slice.
  destruct (extract_frames _ _ _) as [sampled|err]; [| simpl; split; [done | eauto]].
  destruct (encode_frames e sampled) as [urls|err]; [| simpl; split; [done | eauto]].
  apply api_loop_consistent.
Qed.

Lemma analysis_result_is_consistent_witness :
  analysis_info
    (fst (analyze_video_slice Scenario.env_down "clip.mp4" "t" "" None)) = None ∧
  ∃ ai, analysis_info
          (fst (analyze_video_slice Scenario.env_up "clip.mp4" "t" "" None))
        = Some ai ∧ analysis_result ai ≠ "".
Proof.
  split.
  - by destruct (proj2 (analysis_result_is_consistent Scenario.env_down
                          "clip.mp4" "t" "" None) eq_refl) as [? _].
  - destruct (proj1 (analysis_result_is_consistent Scenario.env_up
                       "clip.mp4" "t" "" None) eq_refl) as (ai & ? & ? & _).
    by exists ai.
Defined.

(** The answer of the first attempt that passes validation is the result:
    when the attempts before attempt [k] fail and attempt [k] is valid
    ([k] below 3), the analyzer succeeds with the text and the token count of
    attempt [k], after [k + 1] requests and waits of [2^1 .. 2^k] seconds. *)
Theorem first_valid_answer_wins (e : env) (video_path title prev : string)
        (custom : option string) (sampled urls : list string)
        (k : nat) (content : string) (tokens : Z) :
  extract_frames (open_capture e video_path) (mkdtemp e video_path)
                 (frames_count e) = Ok sampled →
  encode_frames e sampled = Ok urls →
  k < 3 →
  (∀ n, n < k → ∃ err, attempt e (request_of e title prev custom urls) n = Raise err) →
  attempt e (request_of e title prev custom urls) k = Ok (content, tokens) →
  fst (analyze_video_slice e video_path title prev custom)
  = {| success := true;
       analysis_info := Some {| ai_video_path := video_path;
                                analysis_result := content;
                                ai_token_usage := tokens |};
       message := Some "分析完成";
       frames := Some sampled;
       audio_path := Some "";
       token_usage := 0 |} ∧
  requests (snd (analyze_video_slice e video_path title prev custom)) = seq 0 (S k) ∧
  sleeps (snd (analyze_video_slice e video_path title prev custom))
  = map (λ i, (2 ^ Z.of_nat i)%Z) (seq 1 k).
Proof.
  intros Hframes Hurls Hk Hfail Hok.
  unfold analyze_video_slice. rewrite Hframes, Hurls. unfold max_retries.
  destruct k as [|[|[|k]]]; [| | | lia].
  - simpl. rewrite Hok. done.
  - destruct (Hfail 0 ltac:(lia)) as [e0 H0].
    simpl. rewrite H0. simpl. rewrite Hok. done.
  - destruct (Hfail 0 ltac:(lia)) as [e0 H0].
    destruct (Hfail 1 ltac:(lia)) as [e1 H1].
    simpl. rewrite H0. simpl. rewrite H1. simpl. rewrite Hok. done.
Qed.

(** In every run the analyzer sends at most three requests, numbered from
    0, and sleeps only between two requests: 2 seconds after the first and
    4 seconds after the second. *)
Theorem at_most_three_requests (e : env) (video_path title prev : string)
        (custom : option string) :
  length (requests (snd (analyze_video_slice e video_path title prev custom))) ≤ 3 ∧
  requests (snd (analyze_video_slice e video_path title prev custom))
  = seq 0 (length (requests (snd (analyze_video_slice e video_path title prev
                                                       custom)))) ∧
  sleeps (snd (analyze_video_slice e video_path title prev custom))
  = take (length (requests (snd (analyze_video_slice e video_path title prev
                                                      custom))) - 1)
         [2; 4]%Z.
Proof.
  unfold analyze_video_slice.
  destruct (extract_frames _ _ _) as [sampled|err]; [| simpl; split_and!; (done || lia)].
  destruct (encode_frames e sampled) as [urls|err]; [| simpl; split_and!; (done || lia)].
  unfold max_retries. simpl.
  destruct (attempt e _ 0) as [[c0 t0]|e0]; simpl; [split_and!; (done || lia) |].
  destruct (attempt e _ 1) as [[c1 t1]|e1]; simpl; [split_and!; (done || lia) |].
  destruct (attempt e _ 2) as [[c2 t2]|e2]; simpl; split_and!; (done || lia).
Qed.

Lemma encode_frames_raises (e : env) (sampled : list string) (f : string) (err : exn) :
  f ∈ sampled → read_b64 e f = Raise err → ∃ err', encode_frames e sampled = Raise err'.
Proof.
  intros Hin Hf. induction sampled as [|g sampled IH]; [by apply elem_of_nil in Hin |].
  simpl. apply elem_of_cons in Hin as [<- | Hin].
  - rewrite Hf. eauto.
  - destruct (read_b64 e g); [| eauto].
    destruct (IH Hin) as [err' ->]. eauto.
Qed.

(** When the sampling raises, or a sampled frame cannot be read back, the
    analyzer sends no request at all and returns a failed result without
    frames, whose message carries the error. *)
Theorem unreadable_frame_sends_no_request (e : env) (video_path title prev : string)
        (custom : option string) :
  (∀ err, extract_frames (open_capture e video_path) (mkdtemp e video_path)
                         (frames_count e) = Raise err →
          analyze_video_slice e video_path title prev custom
          = (analysis_error err, [])) ∧
  (∀ sampled f err,
     extract_frames (open_capture e video_path) (mkdtemp e video_path)
                    (frames_count e) = Ok sampled →
     f ∈ sampled → read_b64 e f = Raise err →
     ∃ err', analyze_video_slice e video_path title prev custom
             = (analysis_error err', [])) ∧
  ∀ err, success (analysis_error err) = false ∧ frames (analysis_error err) = None ∧
         message (analysis_error err) = Some ("视频分析失败: " +:+ err).
Proof.
  split_and!.
  - intros err H. unfold analyze_video_slice. by rewrite H.
  - intros sampled f err Hs Hin Hf. unfold analyze_video_slice. rewrite Hs.
    destruct (encode_frames_raises e sampled f err Hin Hf) as [err' ->]. eauto.
  - done.
Qed.

Lemma first_valid_answer_wins_witness :
  success (fst (analyze_video_slice Cases.env_flaky "clip.mp4" "t" "" None)) = true ∧
  sleeps (snd (analyze_video_slice Cases.env_flaky "clip.mp4" "t" "" None)) = [2]%Z.
Proof.
  destruct (first_valid_answer_wins Cases.env_flaky "clip.mp4" "t" "" None
              ["/tmp/f/frame_0.jpg"; "/tmp/f/frame_1.jpg"]
              ["data:image/jpeg;base64,AAAA"; "data:image/jpeg;base64,AAAA"]
              1 "a car stops" 0) as (Hres & _ & Hsleeps).
  - reflexivity.
  - reflexivity.
  - lia.
  - intros n Hn. assert (n = 0) as -> by lia. eexists. reflexivity.
  - reflexivity.
  - split; [by rewrite Hres | exact Hsleeps].
Defined.

Lemma unreadable_frame_sends_no_request_witness :
  ∃ err, analyze_video_slice Cases.env_unreadable "clip.mp4" "t" "" None
         = (analysis_error err, []).
Proof.
  destruct (unreadable_frame_sends_no_request Cases.env_unreadable "clip.mp4"
              "t" "" None) as (_ & Hread & _).
  apply (Hread ["/tmp/f/frame_0.jpg"; "/tmp/f/frame_1.jpg"]
               "/tmp/f/frame_1.jpg" "No such file or directory").
  - reflexivity.
  - apply list_elem_of_lookup. exists 1. reflexivity.
  - reflexivity.
Defined.

(** The prompt tells two previous texts apart, does not depend on the
    title, and takes an empty custom rubric for none: the default rubric is
    used. So the request of the analyzer is the same for every title. *)
Theorem prompt_carries_previous_text (title prev : string) (custom : option string) :
  (∀ prev', build_prompt title prev custom = build_prompt title prev' custom →
            prev = prev') ∧
  (∀ title', build_prompt title prev custom = build_prompt title' prev custom) ∧
  build_prompt title prev (Some "") = build_prompt title prev None ∧
  (∀ e video_path title',
     analyze_video_slice e video_path title prev custom
     = analyze_video_slice e video_path title' prev custom).
Proof.
  split_and!; try done.
  intros prev' H. unfold build_prompt in H.
  do 4 apply string_app_inv_l in H.
  by apply string_app_inv_r in H.
Qed.

Lemma prompt_carries_previous_text_witness :
  build_prompt "t" "a car drives" None ≠ build_prompt "t" "" None.
Proof.
  intros H.
  destruct (prompt_carries_previous_text "t" "a car drives" None) as [Hinj _].
  apply Hinj in H. discriminate H.
Defined.

End AnalyzerMore.

(** ** The resource lock, continued *)
Module LockMore.
Import FileLock.
Import Tasks.

Lemma first_fault_none_free (os : os_faults) (path : string) (tbl : lock_table) :
  first_fault os path tbl = None → tbl !! path = None.
Proof.
  unfold first_fault. destruct (open_fault os path); [done |].
  by destruct (tbl !! path).
Qed.

(** Taking a free lock and releasing it: the acquisition succeeds and
    hands out the lock file, the table then names the worker as the holder
    of that path and is unchanged at every other path, and the release
    restores the table as it was. *)
Theorem lock_round_trip (os : os_faults) (me : nat) (dir name : string)
        (tbl : lock_table) :
  first_fault os (lock_file_path dir name) tbl = None →
  fst (acquire_file_lock os me dir name tbl)
  = (true, Some {| lf_path := lock_file_path dir name; lf_owner := me |}) ∧
  snd (acquire_file_lock os me dir name tbl) !! lock_file_path dir name = Some me ∧
  (∀ p, p ≠ lock_file_path dir name →
        snd (acquire_file_lock os me dir name tbl) !! p = tbl !! p) ∧
  release_file_lock (snd (fst (acquire_file_lock os me dir name tbl)))
                    (snd (acquire_file_lock os me dir name tbl)) = tbl.
Proof.
  intros Hfree. rewrite TasksFacts.acquire_file_lock_spec, Hfree. simpl.
  split_and!.
  - done.
  - apply lookup_insert_eq.
  - intros p Hp. by apply lookup_insert_ne.
  - apply delete_insert_id. by eapply first_fault_none_free.
Qed.

Lemma lock_round_trip_witness :
  release_file_lock
    (snd (fst (acquire_file_lock Scenario.no_faults 1 "/tmp/locks" "video_process_v_mp4" ∅)))
    (snd (acquire_file_lock Scenario.no_faults 1 "/tmp/locks" "video_process_v_mp4" ∅))
  = ∅.
Proof.
  destruct (lock_round_trip Scenario.no_faults 1 "/tmp/locks"
              "video_process_v_mp4" ∅) as (_ & _ & _ & Hback).
  - vm_compute. reflexivity.
  - exact Hback.
Defined.

(** While one worker holds a lock, a second worker that can open the lock
    file is refused: the lock table stays as it is, but the lock file is
    emptied, whatever it held, so the PID the holder wrote is gone. Once the
    first has released the lock, the second gets it and the file holds the
    PID of the second. *)
Theorem lock_is_exclusive (os_a os_b : os_faults) (a b : nat) (dir name : string)
        (tbl : lock_table) :
  first_fault os_a (lock_file_path dir name) tbl = None →
  open_fault os_b (lock_file_path dir name) = None →
  acquire_file_lock os_b b dir name (snd (acquire_file_lock os_a a dir name tbl))
  = ((false, None), snd (acquire_file_lock os_a a dir name tbl)) ∧
  (∀ pid_a pid_b flushed text,
     lock_file_text os_a pid_a flushed dir name tbl text = Some pid_a ∧
     lock_file_text os_b pid_b flushed dir name
                    (snd (acquire_file_lock os_a a dir name tbl)) (Some pid_a)
     = Some "") ∧
  (first_fault os_b (lock_file_path dir name) tbl = None →
   fst (acquire_file_lock os_b b dir name
          (release_file_lock (snd (fst (acquire_file_lock os_a a dir name tbl)))
                             (snd (acquire_file_lock os_a a dir name tbl))))
   = (true, Some {| lf_path := lock_file_path dir name; lf_owner := b |}) ∧
   ∀ pid_b flushed text,
     lock_file_text os_b pid_b flushed dir name
       (release_file_lock (snd (fst (acquire_file_lock os_a a dir name tbl)))
                          (snd (acquire_file_lock os_a a dir name tbl))) text
     = Some pid_b).
Proof.
  intros Hfree Hopen.
  destruct (lock_round_trip os_a a dir name tbl Hfree) as (Hgot & Hheld & _ & Hback).
  split_and!.
  - rewrite (TasksFacts.acquire_file_lock_spec os_b). unfold first_fault.
    by rewrite Hopen, Hheld.
  - intros pid_a pid_b flushed text. unfold lock_file_text.
    rewrite Hopen, Hheld. split; [| done].
    unfold first_fault in Hfree.
    destruct (open_fault os_a _); [done |].
    destruct (tbl !! _); [done |].
    destruct (flock_fault os_a _); [done |].
    by destruct (write_fault os_a _).
  - intros Hfree_b. rewrite Hback. split.
    + by rewrite TasksFacts.acquire_file_lock_spec, Hfree_b.
    + intros pid_b flushed text. unfold lock_file_text.
      unfold first_fault in Hfree_b.
      destruct (open_fault os_b _); [done |].
      destruct (tbl !! _); [done |].
      destruct (flock_fault os_b _); [done |].
      by destruct (write_fault os_b _).
Qed.

Lemma lock_is_exclusive_witness :
  fst (acquire_file_lock Scenario.no_faults 2 "/tmp/locks" "video_process_v_mp4"
         (snd (acquire_file_lock Scenario.no_faults 1 "/tmp/locks"
                                 "video_process_v_mp4" ∅)))
  = (false, None) ∧
  lock_file_text Scenario.no_faults "4712" true "/tmp/locks" "video_process_v_mp4"
                 (snd (acquire_file_lock Scenario.no_faults 1 "/tmp/locks"
                                         "video_process_v_mp4" ∅))
                 (Some "4711")
  = Some "".
Proof.
  destruct (lock_is_exclusive Scenario.no_faults Scenario.no_faults 1 2
              "/tmp/locks" "video_process_v_mp4" ∅) as (Hrefused & Htext & _).
  - vm_compute. reflexivity.
  - reflexivity.
  - split; [by rewrite Hrefused |].
    exact (proj2 (Htext "4711" "4712" true None)).
Defined.

Lemma replace_char_length (a b : Ascii.ascii) (s : string) :
  String.length (replace_char a b s) = String.length s.
Proof. induction s as [|c s IH]; simpl; [done | by rewrite IH]. Qed.

Lemma replace_char_gone (a b : Ascii.ascii) (s : string) :
  a ≠ b → a ∉ list_ascii_of_string (replace_char a b s).
Proof.
  intros Hab. induction s as [|c s IH]; simpl; [apply not_elem_of_nil |].
  apply not_elem_of_cons. split; [| done].
  destruct (Ascii.eqb c a) eqn:Hc; [done |]. apply Ascii.eqb_neq in Hc. congruence.
Qed.

Lemma replace_char_keeps_out (a b x : Ascii.ascii) (s : string) :
  x ≠ b → x ∉ list_ascii_of_string s →
  x ∉ list_ascii_of_string (replace_char a b s).
Proof.
  intros Hxb. induction s as [|c s IH]; simpl; [done |].
  rewrite !not_elem_of_cons. intros [Hxc Hs]. split; [| by apply IH].
  by destruct (Ascii.eqb c a).
Qed.

Lemma replace_char_absent (a b : Ascii.ascii) (s : string) :
  a ∉ list_ascii_of_string s → replace_char a b s = s.
Proof.
  induction s as [|c s IH]; simpl; [done |].
  rewrite not_elem_of_cons. intros [Hac Hs]. rewrite (IH Hs).
  destruct (Ascii.eqb c a) eqn:Hc; [| done]. apply Ascii.eqb_eq in Hc. congruence.
Qed.

Lemma replace_char_chars (a b : Ascii.ascii) (s : string) :
  list_ascii_of_string (replace_char a b s)
  = map (fun c => if Ascii.eqb c a then b else c) (list_ascii_of_string s).
Proof. induction s as [|c s IH]; simpl; [done | by rewrite IH]. Qed.

Lemma lock_name_chars (video_name : string) :
  list_ascii_of_string
    (replace_char "." "_" (replace_char " " "_" video_name))
  = map lock_char (list_ascii_of_string video_name).
Proof.
  rewrite !replace_char_chars, map_map. apply map_ext. intros c.
  unfold lock_char. destruct (Ascii.eqb c " "); done.
Qed.

Lemma list_ascii_of_string_inj (s t : string) :
  list_ascii_of_string s = list_ascii_of_string t → s = t.
Proof.
  intros H. rewrite <- (string_of_list_ascii_of_string s), H.
  apply string_of_list_ascii_of_string.
Qed.

(** The lock name of a video: the prefix [video_process_], then the video
    name with every space and every dot turned into an underscore, character
    by character. Two videos have the same lock file exactly when their
    names are equal after that replacement, that is when they have the same
    length and differ only where both have a space, a dot or an underscore:
    [my video.mp4] and [my_video.mp4] share a lock. Names that hold neither
    a space nor a dot are kept as they are, and two such names have the same
    lock file only when they are equal. *)
Theorem lock_name_is_sanitised (video_name : string) :
  (∃ clean, lock_name_of video_name = "video_process_" +:+ clean ∧
            list_ascii_of_string clean
            = map lock_char (list_ascii_of_string video_name) ∧
            String.length clean = String.length video_name ∧
            ((" "%char) ∉ list_ascii_of_string clean) ∧
            (("."%char) ∉ list_ascii_of_string clean)) ∧
  (∀ dir other,
     lock_file_path dir (lock_name_of video_name)
     = lock_file_path dir (lock_name_of other)
     ↔ map lock_char (list_ascii_of_string video_name)
       = map lock_char (list_ascii_of_string other)) ∧
  (∀ c d, lock_char c = lock_char d
          ↔ c = d ∨ (c ∈ [" "; "."; "_"]%char ∧ d ∈ [" "; "."; "_"]%char)) ∧
  ((" "%char) ∉ list_ascii_of_string video_name →
   ("."%char) ∉ list_ascii_of_string video_name →
   lock_name_of video_name = "video_process_" +:+ video_name ∧
   ∀ dir other,
     (" "%char) ∉ list_ascii_of_string other →
     ("."%char) ∉ list_ascii_of_string other →
     lock_file_path dir (lock_name_of video_name)
     = lock_file_path dir (lock_name_of other) →
     video_name = other).
Proof.
  assert (Hpath : ∀ dir v other,
            lock_file_path dir (lock_name_of v)
            = lock_file_path dir (lock_name_of other)
            ↔ map lock_char (list_ascii_of_string v)
              = map lock_char (list_ascii_of_string other)).
  { intros dir v other. rewrite <- !lock_name_chars. split.
    - unfold lock_file_path, path_join, lock_name_of. intros H.
      do 2 apply string_app_inv_l in H.
      apply string_app_inv_r in H. apply string_app_inv_l in H. by rewrite H.
    - intros H. apply list_ascii_of_string_inj in H.
      unfold lock_name_of. by rewrite H. }
  split_and!.
  - eexists. split; [reflexivity |]. split_and!.
    + apply lock_name_chars.
    + by rewrite !replace_char_length.
    + apply replace_char_keeps_out; [done |]. by apply replace_char_gone.
    + by apply replace_char_gone.
  - intros dir other. apply Hpath.
  - intros c d. unfold lock_char. rewrite !elem_of_cons, !elem_of_nil.
    destruct (Ascii.eqb_spec c " ") as [->|Hc1];
      [| destruct (Ascii.eqb_spec c ".") as [->|Hc2]];
      (destruct (Ascii.eqb_spec d " ") as [->|Hd1];
       [| destruct (Ascii.eqb_spec d ".") as [->|Hd2]]);
      split; intros H; try done; auto 10;
      try (subst; auto 10; done);
      try (destruct H as [H|[[H|[H|[H|[]]]] [H'|[H'|[H'|[]]]]]]; congruence).
  - intros Hsp Hdot.
    assert (Hsame : ∀ v, (" "%char) ∉ list_ascii_of_string v →
                         ("."%char) ∉ list_ascii_of_string v →
                         lock_name_of v = "video_process_" +:+ v).
    { intros v Hs Hd. unfold lock_name_of.
      by rewrite (replace_char_absent " " "_" v Hs), (replace_char_absent "." "_" v Hd). }
    split; [by apply Hsame |].
    intros dir other Hsp' Hdot' Hpath'.
    rewrite (Hsame _ Hsp Hdot), (Hsame _ Hsp' Hdot') in Hpath'.
    unfold lock_file_path, path_join in Hpath'.
    do 2 apply string_app_inv_l in Hpath'.
    apply string_app_inv_r in Hpath'. by apply string_app_inv_l in Hpath'.
Qed.

Lemma lock_name_is_sanitised_witness :
  lock_name_of "my video.mp4" = "video_process_my_video_mp4" ∧
  lock_file_path "/tmp/locks" (lock_name_of "my video.mp4")
  = lock_file_path "/tmp/locks" (lock_name_of "my_video.mp4") ∧
  lock_name_of "clip" = "video_process_clip".
Proof.
  destruct (lock_name_is_sanitised "my video.mp4")
    as ((clean & Hname & Hchars & _) & Hsame & _).
  destruct (lock_name_is_sanitised "clip") as (_ & _ & _ & Hclean).
  split_and!.
  - rewrite Hname.
    change "video_process_my_video_mp4" with ("video_process_" +:+ "my_video_mp4").
    f_equal. apply list_ascii_of_string_inj. rewrite Hchars. reflexivity.
  - apply Hsame. reflexivity.
  - apply Hclean; vm_compute; intros H;
      repeat (inversion H as [|? ? ? H']; clear H; rename H' into H).
Defined.

End LockMore.

(** ** Progress as the polling client shows it *)
Section Climbs.
Import Frontend.

Lemma shown_log_app (l1 l2 : list event) :
  shown_log (l1 ++ l2) = shown_log l1 ++ shown_log l2.
Proof. unfold shown_log. apply omap_app. Qed.

Lemma shown_log_silent (evs : list event) :
  Forall (λ ev, meta_of ev = None) evs → shown_log evs = [].
Proof.
  induction 1 as [|ev evs Hev _ IH]; [done |].
  unfold shown_log in *. simpl. by rewrite Hev.
Qed.

(** A computation that never calls [update_state] climbs between any two
    bounds. *)
Lemma climbs_silent {A : Type} (lo hi : Z) (m : M A) :
  steps (λ ev, meta_of ev = None) m → climbs lo hi m.
Proof.
  intros Hm st. destruct (Hm st) as (evs & Htr & Hsilent & _).
  exists evs. rewrite (shown_log_silent _ Hsilent).
  split_and!; [done | constructor | constructor].
Qed.

Lemma climbs_bind {A B : Type} (lo mid hi : Z) (m : M A) (k : A → M B) :
  (lo <= mid)%Z → (mid <= hi)%Z →
  climbs lo mid m → (∀ a, climbs mid hi (k a)) → climbs lo hi (bind m k).
Proof.
  intros Hlo Hhi Hm Hk st. destruct (Hm st) as (evs1 & Ht1 & Hb1 & Hs1).
  unfold bind. destruct (m st) as [[a|e] st1]; simpl in *.
  - destruct (Hk a st1) as (evs2 & Ht2 & Hb2 & Hs2).
    exists (evs1 ++ evs2). rewrite shown_log_app. split_and!.
    + by rewrite Ht2, Ht1, app_assoc.
    + apply Forall_app. split; eapply Forall_impl; eauto; simpl; lia.
    + apply StronglySorted_app_2; [| done | done].
      intros x1 x2 H1 H2.
      rewrite Forall_forall in Hb1, Hb2.
      specialize (Hb1 _ H1). specialize (Hb2 _ H2). lia.
  - exists evs1. split_and!; [done | | done].
    eapply Forall_impl; eauto. simpl. lia.
Qed.

Lemma climbs_bind_silent {A B : Type} (lo hi : Z) (m : M A) (k : A → M B) :
  steps (λ ev, meta_of ev = None) m → (∀ a, climbs lo hi (k a)) →
  climbs lo hi (bind m k).
Proof.
  intros Hm Hk st. destruct (Hm st) as (evs1 & Ht1 & Hsilent & _).
  unfold bind. destruct (m st) as [[a|e] st1]; simpl in *.
  - destruct (Hk a st1) as (evs2 & Ht2 & Hb2 & Hs2).
    exists (evs1 ++ evs2).
    rewrite shown_log_app, (shown_log_silent _ Hsilent). simpl.
    split_and!; [by rewrite Ht2, Ht1, app_assoc | done | done].
  - exists evs1. rewrite (shown_log_silent _ Hsilent).
    split_and!; [done | constructor | constructor].
Qed.

(** One [update_state] call that shows [v]. *)
Lemma climbs_update_state {B : Type} (lo hi v : Z) (current total : Z)
      (step : string) (progress : option Q) (k : M B) :
  shown_percent {| m_current := Some current; m_total := Some total;
                   m_progress := progress |} = v →
  (lo <= v <= hi)%Z → climbs v hi k →
  climbs lo hi (emit (EvUpdateState current total step progress) ;;; k).
Proof.
  intros Hv Hbound Hk. apply (climbs_bind lo v hi); [lia | lia | | by intros _].
  intros st. exists [EvUpdateState current total step progress].
  unfold shown_log. simpl. rewrite Hv.
  split_and!; [done | | ].
  - constructor; [lia | constructor].
  - repeat constructor.
Qed.

Lemma py_int_floor (x : Q) : (0 <= x)%Q → py_int x = Qfloor x.
Proof. intros Hx. unfold py_int. by rewrite (proj2 (Qle_bool_iff 0 x) Hx). Qed.

Lemma py_int_between (lo hi : Z) (x : Q) :
  (0 <= lo)%Z → (inject_Z lo <= x)%Q → (x <= inject_Z hi)%Q →
  (lo <= py_int x <= hi)%Z.
Proof.
  intros Hlo Hx1 Hx2.
  assert (0 <= x)%Q.
  { apply Qle_trans with (inject_Z lo); [| done]. unfold Qle. simpl. lia. }
  rewrite py_int_floor by done. split.
  - rewrite <- (Qfloor_Z lo). by apply Qfloor_resp_le.
  - rewrite <- (Qfloor_Z hi). by apply Qfloor_resp_le.
Qed.

Lemma py_int_mono (x y : Q) : (0 <= x)%Q → (x <= y)%Q → (py_int x <= py_int y)%Z.
Proof.
  intros Hx Hxy. rewrite !py_int_floor; [by apply Qfloor_resp_le | | done].
  by apply Qle_trans with x.
Qed.

End Climbs.

(** ** The queue-driven task, continued *)
Module TasksMore.
Import FileLock.
Import Tasks.
Import Frontend.

Lemma bind_ok_inv {A B : Type} (m : M A) (k : A → M B) (st st' : pstate) (b : B) :
  bind m k st = (Ok b, st') → ∃ a st1, m st = (Ok a, st1) ∧ k a st1 = (Ok b, st').
Proof.
  unfold bind. destruct (m st) as [[a|e] st1]; [eauto | done].
Qed.

(** The body of the task returns a ['success'] dict or raises. *)
Lemma task_body_ok (w : world) (args : task_args) (video_name uuid : string)
      (st st' : pstate) (r : task_result) :
  task_body w args video_name uuid st = (Ok r, st') →
  ∃ dataset_id total_slices, r = Success video_name uuid dataset_id total_slices.
Proof.
  unfold task_body. intros H.
  repeat (apply bind_ok_inv in H as (? & ? & _ & H)).
  injection H as <- _. eauto.
Qed.

(** A task that took the lock gives it back on every way out: whether the
    body succeeds or raises, the result is ['success'] or ['failed'], the
    lock table is as it was before the task, and the release is the last
    thing logged and the only release. *)
Theorem lock_released_on_every_exit (w : world) (me : nat) (args : task_args)
        (st : pstate) :
  first_fault (lock_faults w) (lock_path_of w args) (locks st) = None →
  locks (snd (process_video_task w me args st)) = locks st ∧
  (∃ evs, trace (snd (process_video_task w me args st))
          = trace st ++ evs ++ [EvRelease (lock_path_of w args)] ∧
          Forall (λ ev, is_release ev = false) evs) ∧
  (status (fst (process_video_task w me args st)) = "success" ∨
   status (fst (process_video_task w me args st)) = "failed").
Proof.
  intros Hfree.
  pose proof (LockMore.first_fault_none_free _ _ _ Hfree) as Hnone.
  unfold process_video_task.
  rewrite TasksFacts.acquire_file_lock_spec.
  fold (lock_path_of w args). rewrite Hfree. simpl negb. cbv iota.
  destruct (TasksFacts.task_body_steps w args (video_name_of w args) (uuid_of w args)
              (set_locks (<[lock_path_of w args := me]> (locks st)) st))
    as (evs & Htrace & Hquiet & Hlocks & _).
  destruct (task_body w args (video_name_of w args) (uuid_of w args) _)
    as [r st2] eqn:Hbody.
  simpl in *. split_and!.
  - rewrite Hlocks. by apply delete_insert_id.
  - exists evs. by rewrite Htrace, <- app_assoc.
  - destruct r as [r|e]; simpl; [| by right].
    apply task_body_ok in Hbody as (ds & n & ->). by left.
Qed.

Lemma lock_released_on_every_exit_witness :
  locks (snd (process_video_task (Scenario.world_of Scenario.scenes_full
                                    Scenario.no_faults) 1 Scenario.args Scenario.st0))
  = ∅.
Proof.
  destruct (lock_released_on_every_exit
              (Scenario.world_of Scenario.scenes_full Scenario.no_faults) 1
              Scenario.args Scenario.st0) as (Hlocks & _).
  - vm_compute. reflexivity.
  - exact Hlocks.
Defined.

(** A failure to create the dataset is fatal for the task: it returns
    ['failed'] with the error, nothing is sliced, uploaded, analysed or
    ingested, and the lock is given back. *)
Theorem dataset_failure_is_fatal (w : world) (me : nat) (args : task_args)
        (st : pstate) (e : exn) :
  first_fault (lock_faults w) (lock_path_of w args) (locks st) = None →
  kb_login w = Ok tt → init_analyzer w = Ok tt →
  fs_copy2 w (video_file_path args)
           (path_join (temp_dir w)
                      (uuid_of w args +:+ extension w (video_name_of w args)))
  = Ok tt →
  create_dataset w (uuid_of w args) = Raise e →
  process_video_task w me args st
  = (Failed e (video_name_of w args) (uuid_of w args),
     {| trace := trace st ++
          [EvUpdateState 1 100 "初始化处理环境" None;
           EvCopy (video_file_path args)
                  (path_join (temp_dir w)
                     (uuid_of w args +:+ extension w (video_name_of w args)));
           EvUpdateState 10 100 "创建知识库数据集" None;
           EvCreateDataset (uuid_of w args);
           EvRelease (lock_path_of w args)];
        slicer_info := slicer_info st;
        locks := locks st |}).
Proof.
  intros Hfree Hlogin Hinit Hcopy Hds.
  pose proof (LockMore.first_fault_none_free _ _ _ Hfree) as Hnone.
  unfold process_video_task.
  rewrite TasksFacts.acquire_file_lock_spec.
  fold (lock_path_of w args). rewrite Hfree. simpl negb. cbv iota.
  unfold task_body, bind, emit, lift. simpl.
  rewrite Hlogin, Hinit, Hcopy, Hds. simpl.
  rewrite delete_insert_id by done.
  by rewrite <- !app_assoc.
Qed.

(** A segment whose upload fails, or whose analysis fails, is passed over:
    nothing is ingested for it, the loop goes on, and the next segment is
    handed the text this one received, which is the text of the last
    segment analysed with success. *)
Theorem failed_segment_is_passed_over (w : world)
        (video_name uuid dataset_id : string) (custom : option string)
        (total : nat) (prev : string) (idx : nat) (slice_path : string)
        (st : pstate) :
  (∀ err, upload w slice_path (uuid +:+ "/slice_" +:+ show_nat idx +:+ ".mp4")
          = UploadFailed err →
          ∃ state_ev,
            slice_body w video_name uuid dataset_id custom total prev
                       (idx, slice_path) st
            = (Ok prev,
               {| trace := trace st ++
                    [state_ev;
                     EvUpload slice_path
                              (uuid +:+ "/slice_" +:+ show_nat idx +:+ ".mp4")];
                  slicer_info := slicer_info st; locks := locks st |}) ∧
            is_segment_work state_ev = false) ∧
  (∀ url, upload w slice_path (uuid +:+ "/slice_" +:+ show_nat idx +:+ ".mp4")
          = Uploaded url →
          Analyzer.success
            (fst (Analyzer.analyze_video_slice (analyzer_env w) slice_path
                    video_name prev custom)) = false →
          ∃ state_ev,
            slice_body w video_name uuid dataset_id custom total prev
                       (idx, slice_path) st
            = (Ok prev,
               {| trace := trace st ++
                    [state_ev;
                     EvUpload slice_path
                              (uuid +:+ "/slice_" +:+ show_nat idx +:+ ".mp4");
                     EvAnalyze slice_path video_name prev custom];
                  slicer_info := slicer_info st; locks := locks st |}) ∧
            is_segment_work state_ev = false).
Proof.
  split.
  - intros err Hup. eexists. unfold slice_body, bind, emit, ret. simpl.
    rewrite Hup. simpl. rewrite <- !app_assoc. simpl. split; reflexivity.
  - intros url Hup Hfail. eexists.
    unfold slice_body, call_analyze, bind, emit, ret. simpl.
    rewrite Hup. simpl. rewrite Hfail. simpl.
    rewrite <- !app_assoc. simpl. split; reflexivity.
Qed.

Lemma dataset_failure_is_fatal_witness :
  status (fst (process_video_task Cases.world_no_dataset 1 Scenario.args Scenario.st0))
  = "failed" ∧
  List.filter is_segment_work
    (trace (snd (process_video_task Cases.world_no_dataset 1 Scenario.args Scenario.st0)))
  = [].
Proof.
  rewrite (dataset_failure_is_fatal Cases.world_no_dataset 1 Scenario.args
             Scenario.st0 "创建数据集失败: HTTP 500").
  - split; reflexivity.
  - vm_compute. reflexivity.
  - reflexivity.
  - reflexivity.
  - reflexivity.
  - reflexivity.
Defined.

Lemma failed_segment_is_passed_over_witness :
  fst (slice_body Cases.world_no_upload "v.mp4" "uuid0" "ds" None 2 "a car drives"
                  (1, "out/in/v_segment_1.mp4") Scenario.st0)
  = Ok "a car drives" ∧
  fst (slice_body Cases.world_no_analysis "v.mp4" "uuid0" "ds" None 2 "a car drives"
                  (1, "out/in/v_segment_1.mp4") Scenario.st0)
  = Ok "a car drives".
Proof.
  split.
  - destruct (proj1 (failed_segment_is_passed_over Cases.world_no_upload "v.mp4"
                       "uuid0" "ds" None 2 "a car drives" 1
                       "out/in/v_segment_1.mp4" Scenario.st0)
                    "视频上传失败" eq_refl) as (ev & Hrun & _).
    by rewrite Hrun.
  - destruct (proj2 (failed_segment_is_passed_over Cases.world_no_analysis "v.mp4"
                       "uuid0" "ds" None 2 "a car drives" 1
                       "out/in/v_segment_1.mp4" Scenario.st0)
                    "http://store/uuid0/slice_1.mp4" eq_refl eq_refl) as (ev & Hrun & _).
    by rewrite Hrun.
Defined.

Lemma loop_ratio (idx total : nat) :
  1 ≤ total → idx ≤ total →
  (0 <= inject_Z (Z.of_nat idx) / inject_Z (Z.of_nat total) <= 1)%Q.
Proof.
  intros Htotal Hidx.
  assert (Hpos : (0 < inject_Z (Z.of_nat total))%Q).
  { unfold Qlt. simpl. lia. }
  split.
  - apply Qle_shift_div_l; [done |]. rewrite Qmult_0_l. unfold Qle. simpl. lia.
  - apply Qle_shift_div_r; [done |]. rewrite Qmult_1_l. unfold Qle. simpl. lia.
Qed.

Lemma loop_progress_bounds (idx total : nat) :
  1 ≤ total → idx ≤ total →
  (inject_Z 30 <= loop_progress idx total)%Q ∧
  (loop_progress idx total <= inject_Z 90)%Q.
Proof.
  intros Htotal Hidx. destruct (loop_ratio idx total Htotal Hidx) as [H0 H1].
  unfold loop_progress.
  set (x := (inject_Z (Z.of_nat idx) / inject_Z (Z.of_nat total))%Q) in *.
  change (inject_Z 30) with 30%Q. change (inject_Z 90) with 90%Q.
  split; lra.
Qed.

Lemma loop_progress_mono (idx idx' total : nat) :
  1 ≤ total → idx ≤ idx' →
  (loop_progress idx total <= loop_progress idx' total)%Q.
Proof.
  intros Htotal Hle. unfold loop_progress.
  assert ((inject_Z (Z.of_nat idx) / inject_Z (Z.of_nat total)
           <= inject_Z (Z.of_nat idx') / inject_Z (Z.of_nat total))%Q) as Hx.
  { unfold Qdiv. apply Qmult_le_compat_r.
    - unfold Qle. simpl. lia.
    - apply Qinv_le_0_compat. unfold Qle. simpl. lia. }
  set (x := (inject_Z (Z.of_nat idx) / inject_Z (Z.of_nat total))%Q) in *.
  set (y := (inject_Z (Z.of_nat idx') / inject_Z (Z.of_nat total))%Q) in *.
  lra.
Qed.

(** The percentage shown for the state reported at segment [idx]. *)
Lemma loop_shown (idx total : nat) :
  1 ≤ total →
  shown_percent {| m_current := Some (Z.of_nat idx);
                   m_total := Some (Z.of_nat total);
                   m_progress := Some (loop_progress idx total) |}
  = py_int (loop_progress idx total).
Proof.
  intros Htotal. unfold shown_percent, progress_value. simpl.
  destruct (Z.of_nat total =? 0)%Z eqn:H; [apply Z.eqb_eq in H; lia | done].
Qed.

Lemma loop_climbs (w : world) (video_name uuid dataset_id : string)
      (custom : option string) (total : nat) (paths : list string) :
  ∀ (s : nat) (prev : string) (lo : Z),
    1 ≤ s → s + length paths ≤ S total → (30 <= lo <= 90)%Z →
    (paths ≠ [] → (lo <= py_int (loop_progress s total))%Z) →
    climbs lo 90 (for_each (slice_body w video_name uuid dataset_id custom total)
                           (enumerate s paths) prev).
Proof.
  induction paths as [|path paths IH]; intros s prev lo Hs Hlen Hlo Hfirst; simpl.
  - apply climbs_silent, steps_ret.
  - simpl in Hlen.
    assert (Htotal : 1 ≤ total) by lia.
    destruct (loop_progress_bounds s total Htotal ltac:(lia)) as [Hb1 Hb2].
    pose proof (py_int_between 30 90 _ ltac:(lia) Hb1 Hb2) as Hg.
    apply (climbs_bind lo (py_int (loop_progress s total)) 90);
      [by apply Hfirst | lia | |].
    + unfold slice_body.
      eapply climbs_update_state; [by apply loop_shown | | ].
      * split; [by apply Hfirst | lia].
      * apply climbs_silent. steps_by_structure.
    + intros prev'. apply IH; [lia | lia | lia |].
      intros _. apply py_int_mono.
      * apply Qle_trans with (inject_Z 30); [unfold Qle; simpl; lia | done].
      * apply loop_progress_mono; lia.
Qed.

Lemma task_body_climbs (w : world) (args : task_args) (video_name uuid : string) :
  climbs 1 95 (task_body w args video_name uuid).
Proof.
  unfold task_body.
  eapply climbs_update_state; [vm_compute; reflexivity | lia |].
  do 4 (apply climbs_bind_silent; [steps_by_structure | intros ?]).
  eapply climbs_update_state; [vm_compute; reflexivity | lia |].
  do 2 (apply climbs_bind_silent; [steps_by_structure | intros ?]).
  eapply climbs_update_state; [vm_compute; reflexivity | lia |].
  apply climbs_bind_silent; [steps_by_structure | intros ?].
  eapply climbs_update_state; [vm_compute; reflexivity | lia |].
  apply climbs_bind_silent; [steps_by_structure | intros slice_paths].
  apply (climbs_bind 30 90 95); [lia | lia | |].
  - apply loop_climbs; [lia | lia | lia |].
    intros Hne. destruct slice_paths as [|p ps]; [done |].
    destruct (loop_progress_bounds 1 (length (p :: ps)) ltac:(simpl; lia)
                                   ltac:(simpl; lia)) as [Hb1 Hb2].
    apply (py_int_between 30 90); [lia | done | done].
  - intros _.
    eapply climbs_update_state; [vm_compute; reflexivity | lia |].
    apply climbs_silent. steps_by_structure.
Qed.

(** The percentages a client polling a task shows, from the first state the
    task reports to its last: each lies between 1 and 95 and none is below
    an earlier one, on every run of the task, whether it is skipped, fails
    or succeeds. *)
Theorem task_progress_climbs (w : world) (me : nat) (args : task_args)
        (st : pstate) :
  ∃ evs, trace (snd (process_video_task w me args st)) = trace st ++ evs ∧
         Forall (λ v, (1 <= v <= 95)%Z) (shown_log evs) ∧
         StronglySorted Z.le (shown_log evs).
Proof.
  unfold process_video_task.
  destruct (acquire_file_lock _ _ _ _ _) as [[acquired lf] tbl].
  destruct acquired; simpl.
  - destruct (task_body_climbs w args (video_name_of w args) (uuid_of w args)
                (set_locks tbl st)) as (evs & Htrace & Hbound & Hsorted).
    destruct (task_body w args _ _ _) as [r st2]. simpl in *.
    destruct lf as [lf|]; simpl.
    + exists (evs ++ [EvRelease (lf_path lf)]).
      rewrite Htrace, shown_log_app, <- app_assoc. simpl.
      rewrite app_nil_r. done.
    + by exists evs.
  - exists []. rewrite app_nil_r. split_and!; [done | constructor | constructor].
Qed.

End TasksMore.

(** ** The in-process pipeline, continued *)
Module MainMore.
Import Main.

Lemma video_body_ok (w : world) (video_path video_name uuid : string)
      (st st' : pstate) (r : video_result) :
  video_body w video_path video_name uuid st = (Ok r, st') →
  ∃ dataset_id, r = VSuccess video_name dataset_id 5.
Proof.
  unfold video_body. intros H.
  apply TasksMore.bind_ok_inv in H as (new_path & ? & _ & H).
  apply TasksMore.bind_ok_inv in H as (? & ? & _ & H).
  apply TasksMore.bind_ok_inv in H as (dataset_id & ? & _ & H).
  apply TasksMore.bind_ok_inv in H as (? & ? & _ & H).
  apply TasksMore.bind_ok_inv in H as (slices & ? & _ & H).
  apply TasksMore.bind_ok_inv in H as (? & ? & _ & H).
  apply TasksMore.bind_ok_inv in H as (total & ? & Htotal & H).
  unfold lift in Htotal. injection Htotal as Htotal _.
  apply PipelineFacts.len_slice_info_is_five in Htotal as ->.
  repeat (apply TasksMore.bind_ok_inv in H as (? & ? & _ & H)).
  injection H as <- _. eauto.
Qed.

(** [process_single_video] cleans up on every way out. Its log starts with
    the job marked as processing at progress 0 and ends with the cleanup of
    the job's UUID. When it raises, the job is marked failed just before
    the cleanup; when it returns, the result is a success dict for the
    video that reports 5 slices. The lock table is never touched. *)
Theorem cleanup_runs_on_every_exit (w : world) (video_path : string) (st : pstate) :
  locks (snd (process_single_video w video_path st)) = locks st ∧
  ∃ evs, trace (snd (process_single_video w video_path st))
         = trace st ++ [EvStatus "processing"; EvProgress 0] ++ evs ++
           [EvCleanup (fresh_uuid w 0)] ∧
         (∀ e, fst (process_single_video w video_path st) = Raise e →
               ∃ evs', evs = evs' ++ [EvStatus "failed"]) ∧
         (∀ r, fst (process_single_video w video_path st) = Ok r →
               ∃ dataset_id, r = VSuccess (basename w video_path) dataset_id 5).
Proof.
  unfold process_single_video, bind, emit. simpl.
  destruct (PipelineFacts.main_video_body_unchained w video_path
              (basename w video_path) (fresh_uuid w 0)
              {| trace := (trace st ++ [EvStatus "processing"]) ++ [EvProgress 0];
                 slicer_info := slicer_info st; locks := locks st |})
    as (evs & Htrace & _ & Hlocks & _).
  destruct (video_body w video_path _ _ _) as [[r|e] st1] eqn:Hbody; simpl in *.
  - split; [done |]. exists evs. split_and!.
    + rewrite Htrace, <- !app_assoc. done.
    + done.
    + intros r' [= <-]. by eapply video_body_ok.
  - split; [done |]. exists (evs ++ [EvStatus "failed"]). split_and!.
    + rewrite Htrace, <- !app_assoc. done.
    + intros _ _. eauto.
    + done.
Qed.

Lemma cleanup_runs_on_every_exit_witness :
  ∃ dataset_id,
    fst (process_single_video Cases.world_ok "in/v.mp4" Scenario.st0)
    = Ok (VSuccess "v.mp4" dataset_id 5).
Proof.
  destruct (cleanup_runs_on_every_exit Cases.world_ok "in/v.mp4" Scenario.st0)
    as (_ & evs & _ & _ & Hok).
  destruct (fst (process_single_video Cases.world_ok "in/v.mp4" Scenario.st0))
    as [r|e] eqn:Hrun; [| by vm_compute in Hrun].
  destruct (Hok r eq_refl) as [dataset_id ->].
  by exists dataset_id.
Defined.

(** In [process_single_video] one bad segment fails the whole video: when
    the upload of a segment fails, or its analysis does, the loop raises at
    that segment, nothing is ingested for it and the segments after it are
    not touched. *)
Theorem bad_segment_fails_the_video (w : world) (video_name uuid dataset_id : string)
        (total : nat) (pre : string) (idx : nat) (slice_path : string)
        (rest : list (nat * string)) (st : pstate) :
  (∀ err, upload w slice_path (uuid +:+ "/slice_" +:+ show_nat idx +:+ ".mp4")
          = UploadFailed err →
          for_each (slice_body w video_name uuid dataset_id total)
                   ((idx, slice_path) :: rest) pre st
          = (Raise "'url'",
             {| trace := trace st ++
                  [EvUpload slice_path
                            (uuid +:+ "/slice_" +:+ show_nat idx +:+ ".mp4")];
                slicer_info := slicer_info st; locks := locks st |})) ∧
  (∀ url, upload w slice_path (uuid +:+ "/slice_" +:+ show_nat idx +:+ ".mp4")
          = Uploaded url →
          Analyzer.success
            (fst (Analyzer.analyze_video_slice (analyzer_env w) slice_path
                    video_name "" None)) = false →
          for_each (slice_body w video_name uuid dataset_id total)
                   ((idx, slice_path) :: rest) pre st
          = (Raise "'NoneType' object is not subscriptable",
             {| trace := trace st ++
                  [EvUpload slice_path
                            (uuid +:+ "/slice_" +:+ show_nat idx +:+ ".mp4");
                   EvAnalyze slice_path video_name "" None];
                slicer_info := slicer_info st; locks := locks st |})).
Proof.
  split.
  - intros err Hup. simpl.
    unfold slice_body, extract_file_path, bind, emit, lift. simpl.
    by rewrite Hup.
  - intros url Hup Hfail. simpl.
    unfold slice_body, extract_file_path, call_analyze, analysis_text,
      bind, emit, lift, ret. simpl.
    rewrite Hup. simpl.
    assert (Hnone : Analyzer.analysis_info
                      (fst (Analyzer.analyze_video_slice (analyzer_env w)
                              slice_path video_name "" None)) = None).
    { revert Hfail. unfold Analyzer.analyze_video_slice.
      destruct (Analyzer.extract_frames _ _ _) as [sampled|e]; [| done].
      destruct (Analyzer.encode_frames _ sampled) as [urls|e]; [| done].
      intros Hfail.
      by destruct (proj2 (AnalyzerMore.api_loop_consistent _ _ _ _ _ _ _ _) Hfail). }
    rewrite Hnone. by rewrite <- !app_assoc.
Qed.

Lemma bad_segment_fails_the_video_witness :
  fst (for_each (slice_body Cases.world_no_analysis "v.mp4" "uuid0" "ds" 5)
                [(1, "out/in/v_segment_1.mp4"); (2, "out/in/v_segment_2.mp4")]
                "" Scenario.st0)
  = Raise "'NoneType' object is not subscriptable" ∧
  fst (for_each (slice_body Cases.world_no_upload "v.mp4" "uuid0" "ds" 5)
                [(1, "out/in/v_segment_1.mp4"); (2, "out/in/v_segment_2.mp4")]
                "" Scenario.st0)
  = Raise "'url'".
Proof.
  split.
  - rewrite (proj2 (bad_segment_fails_the_video Cases.world_no_analysis "v.mp4"
                      "uuid0" "ds" 5 "" 1 "out/in/v_segment_1.mp4"
                      [(2, "out/in/v_segment_2.mp4")] Scenario.st0)
                   "http://store/uuid0/slice_1.mp4" eq_refl eq_refl).
    reflexivity.
  - rewrite (proj1 (bad_segment_fails_the_video Cases.world_no_upload "v.mp4"
                      "uuid0" "ds" 5 "" 1 "out/in/v_segment_1.mp4"
                      [(2, "out/in/v_segment_2.mp4")] Scenario.st0)
                   "视频上传失败" eq_refl).
    reflexivity.
Defined.

(** A source file that is not there fails the job before anything is asked
    of the knowledge store: [process_single_video] raises, and all it has
    done is mark the job processing, then failed, and clean up. *)
Theorem missing_source_is_fatal (w : world) (video_path : string) (st : pstate) :
  fs_exists w (path_join (dirname w video_path)
                         (fresh_uuid w 0 +:+ extension w video_path)) = false →
  fs_exists w video_path = false →
  process_single_video w video_path st
  = (Raise ("源文件不存在: " +:+ video_path),
     {| trace := trace st ++
          [EvStatus "processing"; EvProgress 0; EvStatus "failed";
           EvCleanup (fresh_uuid w 0)];
        slicer_info := slicer_info st; locks := locks st |}).
Proof.
  intros Hnew Hsrc.
  unfold process_single_video, video_body, rename_source, bind, emit, raise.
  simpl. rewrite Hnew, Hsrc. simpl. by rewrite <- !app_assoc.
Qed.

Lemma missing_source_is_fatal_witness :
  fst (process_single_video Cases.world_ok "in/gone.mp4" Scenario.st0)
  = Raise "源文件不存在: in/gone.mp4".
Proof.
  by rewrite (missing_source_is_fatal Cases.world_ok "in/gone.mp4" Scenario.st0
                eq_refl eq_refl).
Defined.

End MainMore.

(** ** The sequential and the per-directory drivers *)
Module DriversMore.
Import Main Drivers.

Lemma process_single_video_ok (w : world) (video_path : string) (st : pstate)
      (r : video_result) :
  fst (process_single_video w video_path st) = Ok r →
  ∃ dataset_id, r = VSuccess (basename w video_path) dataset_id 5.
Proof.
  unfold process_single_video, bind, emit. simpl.
  destruct (video_body _ _ _ _ _) as [[r'|e] st1] eqn:Hbody; simpl; [| done].
  intros [= <-]. by eapply MainMore.video_body_ok.
Qed.

(** The loop of [process_all_videos] from any position and any results
    collected so far. *)
Lemma process_all_videos_loop (worlds : nat → world) (input_dir : string)
      (l : list string) (s : nat) (acc : list video_result) (st : pstate) :
  ∃ new,
    fst (for_each
           (fun (results : list video_result) (p : nat * string) =>
              fun st =>
                match process_single_video (worlds (fst p))
                        (path_join input_dir (snd p)) st with
                | (Ok result, st') => (Ok (results ++ [result]), st')
                | (Raise e, st') => (Ok (results ++ [VFailed (snd p) e]), st')
                end)
           (enumerate s l) acc st) = Ok (acc ++ new) ∧
    length new = length l ∧
    ∀ k f, l !! k = Some f →
      (∃ e, new !! k = Some (VFailed f e)) ∨
      (∃ dataset_id,
          new !! k = Some (VSuccess (basename (worlds (s + k))
                                              (path_join input_dir f))
                                    dataset_id 5)).
Proof.
  revert s acc st. induction l as [|f l IH]; intros s acc st.
  - exists []. simpl. by rewrite app_nil_r.
  - simpl. unfold bind at 1. simpl.
    destruct (process_single_video (worlds s) (path_join input_dir f) st)
      as [[r|e] st1] eqn:Hrun.
    + destruct (IH (S s) (acc ++ [r]) st1) as (new & Hres & Hlen & Hnew).
      exists (r :: new). rewrite Hres. split_and!.
      * by rewrite <- app_assoc.
      * simpl. lia.
      * intros [|k] f' Hk; simpl in *.
        -- injection Hk as <-. right.
           destruct (process_single_video_ok (worlds s) (path_join input_dir f) st r)
             as [dataset_id ->]; [by rewrite Hrun |].
           rewrite Nat.add_0_r. eauto.
        -- rewrite <- Nat.add_succ_comm. by apply Hnew.
    + destruct (IH (S s) (acc ++ [VFailed f e]) st1) as (new & Hres & Hlen & Hnew).
      exists (VFailed f e :: new). rewrite Hres. split_and!.
      * by rewrite <- app_assoc.
      * simpl. lia.
      * intros [|k] f' Hk; simpl in *.
        -- injection Hk as <-. left. eauto.
        -- rewrite <- Nat.add_succ_comm. by apply Hnew.
Qed.

(** [process_all_videos] raises only when the directory cannot be listed:
    the exception of [os.listdir] comes out as it is, with nothing logged.
    Once the directory is listed nothing raises any more: it returns one
    entry per video file, in the order of the listing: for the [k]-th video
    either a failure entry that carries the file name, or the success dict
    of [process_single_video], which carries the base name of the path and
    reports 5 slices. A video that fails does not stop the ones after it. *)
Theorem sequential_driver_records_every_video (worlds : nat → world)
        (listdir : string → res (list string)) (input_dir : string)
        (st : pstate) :
  (∀ e, listdir input_dir = Raise e →
        process_all_videos worlds listdir input_dir st = (Raise e, st)) ∧
  (∀ files, listdir input_dir = Ok files →
     ∃ results,
       fst (process_all_videos worlds listdir input_dir st) = Ok results ∧
       length results = length (List.filter is_video_file files) ∧
       ∀ k f, List.filter is_video_file files !! k = Some f →
         (∃ e, results !! k = Some (VFailed f e)) ∨
         (∃ dataset_id,
             results !! k
             = Some (VSuccess (basename (worlds k) (path_join input_dir f))
                              dataset_id 5))).
Proof.
  unfold process_all_videos, bind, lift. split.
  - by intros e ->.
  - intros files ->.
    destruct (process_all_videos_loop worlds input_dir
                (List.filter is_video_file files) 0 [] st)
      as (new & Hres & Hlen & Hnew).
    exists new. split_and!; [exact Hres | exact Hlen | exact Hnew].
Qed.

Lemma sequential_driver_records_every_video_witness :
  (∃ results r,
      fst (process_all_videos (fun _ => Cases.world_ok)
                              (fun _ => Ok ["v.mp4"; "notes.txt"]) "in"
                              Scenario.st0) = Ok results ∧
      results !! 0 = Some r) ∧
  process_all_videos (fun _ => Cases.world_ok)
                     (fun d => Raise ("No such file or directory: " +:+ d)) "in"
                     Scenario.st0
  = (Raise "No such file or directory: in", Scenario.st0).
Proof.
  split.
  - destruct (proj2 (sequential_driver_records_every_video
                       (fun _ => Cases.world_ok)
                       (fun _ => Ok ["v.mp4"; "notes.txt"]) "in" Scenario.st0)
                    ["v.mp4"; "notes.txt"] eq_refl)
      as (results & Hres & _ & Hall).
    exists results.
    destruct (Hall 0 "v.mp4" eq_refl) as [[e He]|[dataset_id Hr]]; eauto.
  - apply (proj1 (sequential_driver_records_every_video
                    (fun _ => Cases.world_ok)
                    (fun d => Raise ("No such file or directory: " +:+ d)) "in"
                    Scenario.st0)).
    reflexivity.
Defined.

Lemma subdirs_loop_raised (batch : string → res (list video_result))
      (l : list string) (e : exn) :
  fold_left
    (fun (acc : res (list video_result)) subdir =>
       match acc with
       | Raise e => Raise e
       | Ok results =>
           match load_config_from_dir subdir with
           | Raise e => Raise e
           | Ok _ =>
               match batch subdir with
               | Raise e => Raise e
               | Ok subdir_results => Ok (results ++ subdir_results)
               end
           end
       end) l (Raise e) = Raise e.
Proof. induction l as [|d l IH]; simpl; [done | exact IH]. Qed.

(** [process_all_subdirs] processes nothing. With no subdirectory whose
    name starts with the model prefix it returns the empty list; with one,
    loading the configuration of the first raises [AttributeError], whatever
    the batch orchestrator would have done. *)
Theorem subdirectory_driver_processes_nothing (entries : list (string * bool))
        (batch : string → res (list video_result)) :
  process_all_subdirs entries batch =
  if existsb (fun d => snd d && String.prefix model_prefix (fst d)) entries
  then Raise "'VideoProcessor' object has no attribute 'analyse_config'"
  else Ok [].
Proof.
  unfold process_all_subdirs.
  induction entries as [|d entries IH]; [done |].
  cbn [List.filter existsb].
  destruct (snd d && String.prefix model_prefix (fst d)) eqn:Hd.
  - apply andb_prop in Hd as [_ Hprefix].
    cbn [map fold_left orb].
    assert (load_config_from_dir (fst d)
            = Raise "'VideoProcessor' object has no attribute 'analyse_config'")
      as -> by (unfold load_config_from_dir; by rewrite Hprefix).
    apply subdirs_loop_raised.
  - exact IH.
Qed.

End DriversMore.

(** ** The batch orchestrator, continued *)
Module BatchMore.
Import Main.

Lemma substring_full (s : string) : String.substring 0 (String.length s) s = s.
Proof. induction s as [|c s IH]; simpl; [done | by rewrite IH]. Qed.

Lemma substring_skip (p s : string) (n : nat) :
  String.substring (String.length p) n (p +:+ s) = String.substring 0 n s.
Proof.
  induction p as [|c p IH]; [done |].
  rewrite string_app_cons. simpl. exact IH.
Qed.

Lemma substring_split (n : nat) (s : string) :
  n ≤ String.length s →
  s = String.substring 0 n s +:+ String.substring n (String.length s - n) s.
Proof.
  revert s. induction n as [|n IH]; intros s Hn.
  - rewrite Nat.sub_0_r, substring_full. by destruct s.
  - destruct s as [|c s]; simpl in Hn; [lia |].
    simpl. rewrite string_app_cons. f_equal. apply IH. lia.
Qed.

(** [s.endswith(suffix)]. *)
Lemma ends_with_spec (suffix s : string) :
  ends_with suffix s = true ↔ ∃ stem, s = stem +:+ suffix.
Proof.
  unfold ends_with. rewrite andb_true_iff, Nat.leb_le, String.eqb_eq. split.
  - intros [Hlen Hsub].
    exists (String.substring 0 (String.length s - String.length suffix) s).
    pose proof (substring_split (String.length s - String.length suffix) s
                  ltac:(lia)) as Hs.
    replace (String.length s - (String.length s - String.length suffix))
      with (String.length suffix) in Hs by lia.
    by rewrite Hsub in Hs.
  - intros [stem ->]. rewrite string_length_app. split; [lia |].
    replace (String.length stem + String.length suffix - String.length suffix)
      with (String.length stem) by lia.
    by rewrite substring_skip, substring_full.
Qed.

(** The files the orchestrators pick from a directory listing are those
    whose name ends, in lower case, with one of the three extensions; a name
    that is only an extension counts. *)
Theorem video_files_are_chosen_by_suffix (f : string) :
  is_video_file f = true ↔
  ∃ stem ext, ext ∈ [".mp4"; ".avi"; ".mov"] ∧ f = stem +:+ ext.
Proof.
  unfold is_video_file. rewrite !orb_true_iff, !ends_with_spec. split.
  - intros [[[stem ->]|[stem ->]]|[stem ->]]; exists stem; eexists;
      (split; [| reflexivity]); set_solver.
  - intros (stem & ext & Hext & ->).
    rewrite !elem_of_cons, elem_of_nil in Hext.
    destruct Hext as [->|[->|[->|[]]]]; eauto.
Qed.

(** [range(0, n, B)] stops after the last start below [n]. *)
Lemma batch_count_bounds (B n : nat) :
  0 < B →
  n ≤ (n + B - 1) / B * B ∧ ∀ k, k < (n + B - 1) / B → k * B < n.
Proof.
  intros HB.
  pose proof (Nat.div_mod_eq (n + B - 1) B) as Hdm.
  pose proof (Nat.mod_upper_bound (n + B - 1) B ltac:(lia)) as Hlt.
  split; [nia |]. intros k Hk. nia.
Qed.

Lemma batches_prefix {A : Type} (B : nat) (l : list A) (m : nat) :
  concat (map (fun i => take B (drop i l)) (map (fun k => k * B) (seq 0 m)))
  = take (m * B) l.
Proof.
  induction m as [|m IH]; [done |].
  rewrite seq_S, !map_app, concat_app, IH. simpl.
  rewrite app_nil_r, take_take_drop. f_equal. lia.
Qed.

Lemma batches_concat {A : Type} (B : nat) (l : list A) :
  0 < B →
  concat (map (fun i => take B (drop i l)) (batch_starts B (length l))) = l.
Proof.
  intros HB. unfold batch_starts. rewrite batches_prefix.
  apply take_ge. by apply batch_count_bounds.
Qed.

(** The batches of [process_all_videos_batch] cut the list of videos into
    consecutive pieces: put end to end they are the list again, no batch is
    empty and none is larger than the batch size. *)
Theorem batches_partition_the_videos (B : nat) (videos : list string) :
  0 < B →
  concat (map (fun i => take B (drop i videos)) (batch_starts B (length videos)))
  = videos ∧
  Forall (fun i => 1 ≤ length (take B (drop i videos)) ≤ B)
         (batch_starts B (length videos)).
Proof.
  intros HB. split; [by apply batches_concat |].
  unfold batch_starts. rewrite Forall_map, Forall_forall.
  intros k Hk. apply elem_of_seq in Hk as [_ Hk]. simpl in Hk.
  apply (proj2 (batch_count_bounds B (length videos) HB)) in Hk.
  rewrite length_take, length_drop. lia.
Qed.

Lemma batches_partition_the_videos_witness :
  concat (map (fun i => take 2 (drop i ["a.mp4"; "b.avi"; "c.mov"]))
              (batch_starts 2 3))
  = ["a.mp4"; "b.avi"; "c.mov"].
Proof.
  apply (batches_partition_the_videos 2 ["a.mp4"; "b.avi"; "c.mov"]). lia.
Defined.

(** One pass over a batch, as an invariant of the results list. *)
Lemma scan_batch_inv (P : video_result → Prop) (run : string → nat → res video_result)
      (R retry : nat) (batch : list string) (acc : list video_result) :
  Forall P acc →
  (∀ v r, v ∈ batch → run v retry = Ok r → P r) →
  (∀ v e, v ∈ batch → run v retry = Raise e → retry = R - 1 → P (VFailed v e)) →
  Forall P (scan_batch R retry (zip batch (process_batch run batch retry)) acc).
Proof.
  revert acc. induction batch as [|v batch IH]; intros acc Hacc Hok Hfail.
  - done.
  - unfold process_batch in *. simpl.
    destruct (run v retry) as [r|e] eqn:Hrun.
    + apply Forall_app. split; [done |].
      apply Forall_singleton. eapply Hok; [| done]. set_solver.
    + apply IH.
      * destruct (retry =? R - 1) eqn:Hlast; [| done].
        apply Forall_app. split; [done |]. apply Forall_singleton.
        apply Nat.eqb_eq in Hlast. eapply Hfail; [| done..]. set_solver.
      * intros v' r Hv'. apply Hok. set_solver.
      * intros v' e' Hv'. apply Hfail. set_solver.
Qed.

Lemma fold_left_inv {A S : Type} (I : S → Prop) (f : S → A → S) (l : list A) (s : S) :
  I s → (∀ s x, x ∈ l → I s → I (f s x)) → I (fold_left f l s).
Proof.
  revert s. induction l as [|x l IH]; intros s Hs Hf; simpl; [done |].
  apply IH.
  - apply Hf; [set_solver | done].
  - intros s' x' Hx'. apply Hf. set_solver.
Qed.

(** Whatever [process_all_videos_batch] returns was produced by a run of a
    video file of the directory: every entry is the dict one of the at most
    [max_retries] runs of a video returned, or the failure entry written
    for the exception of its last run. Nothing else gets into the list. *)
Theorem batch_results_come_from_runs (update : res unit)
        (run : string → nat → res video_result) (B R : nat)
        (files : list string) (r : video_result) :
  r ∈ results_of (process_all_videos_batch update run B R files) →
  ∃ video retry,
    video ∈ List.filter is_video_file files ∧ retry < R ∧
    (run video retry = Ok r ∨
     (S retry = R ∧ ∃ e, run video retry = Raise e ∧ r = VFailed video e)).
Proof.
  unfold process_all_videos_batch.
  destruct update as [[]|e]; [| by intros ?%elem_of_nil].
  destruct (B =? 0); [by intros ?%elem_of_nil |].
  simpl. set (videos := List.filter is_video_file files).
  set (P := fun r : video_result =>
              ∃ video retry, video ∈ videos ∧ retry < R ∧
                (run video retry = Ok r ∨
                 (S retry = R ∧ ∃ e, run video retry = Raise e ∧ r = VFailed video e))).
  match goal with
  | |- r ∈ (let (_, _) := fold_left ?f ?l ?a in _) → _ =>
      assert (Hinv : Forall P (fst (fold_left f l a)))
  end.
  { apply (fold_left_inv (fun acc => Forall P (fst acc))); [by constructor |].
    intros [results ps] i _ Hresults. simpl in *.
    unfold retry_batch.
    apply (fold_left_inv (Forall P)); [done |].
    intros results' retry Hretry Hresults'.
    apply elem_of_seq in Hretry as [_ Hretry]. simpl in Hretry.
    assert (Hsub : ∀ v, v ∈ take B (drop i videos) → v ∈ videos).
    { intros v Hv. by apply subseteq_drop with i, subseteq_take with B. }
    apply scan_batch_inv; [done | |].
    - intros v r' Hv Hrun. exists v, retry. split_and!; auto.
    - intros v e Hv Hrun Hlast. exists v, retry. split_and!; auto.
      right. split; [lia |]. eauto. }
  destruct (fold_left _ _ _) as [results ps]. simpl in Hinv.
  intros Hr. by apply (proj1 (Forall_forall _ _) Hinv).
Qed.

Lemma batch_results_come_from_runs_witness :
  ∃ video retry,
    video ∈ ["a.mp4"; "b.avi"] ∧ retry < 2 ∧
    ((fun v k => if String.eqb v "a.mp4" then Raise ("lost " +:+ show_nat k)
                 else Ok (VSuccess v "ds" 5)) video retry
     = Ok (VFailed "a.mp4" "lost 1") ∨
     (S retry = 2 ∧ ∃ e,
         (fun v k => if String.eqb v "a.mp4" then Raise ("lost " +:+ show_nat k)
                     else Ok (VSuccess v "ds" 5)) video retry = Raise e ∧
         VFailed "a.mp4" "lost 1" = VFailed video e)).
Proof.
  apply (batch_results_come_from_runs (Ok tt)
           (fun v k => if String.eqb v "a.mp4" then Raise ("lost " +:+ show_nat k)
                       else Ok (VSuccess v "ds" 5))
           2 2 ["a.mp4"; "notes.txt"; "b.avi"]).
  vm_compute. repeat constructor.
Defined.

Lemma scan_batch_all_fail (run : string → nat → res video_result)
      (err : string → nat → exn) (R retry : nat) (batch : list string)
      (acc : list video_result) :
  (∀ v k, run v k = Raise (err v k)) →
  scan_batch R retry (zip batch (process_batch run batch retry)) acc
  = if retry =? R - 1
    then acc ++ map (fun v => VFailed v (err v retry)) batch
    else acc.
Proof.
  intros Hrun. revert acc. unfold process_batch.
  induction batch as [|v batch IH]; intros acc; simpl.
  - destruct (retry =? R - 1); [by rewrite app_nil_r | done].
  - rewrite Hrun, IH. destruct (retry =? R - 1); [| done].
    by rewrite <- app_assoc.
Qed.

Lemma retry_batch_all_fail (run : string → nat → res video_result)
      (err : string → nat → exn) (R : nat) (batch : list string)
      (acc : list video_result) :
  0 < R → (∀ v k, run v k = Raise (err v k)) →
  retry_batch run R batch acc
  = acc ++ map (fun v => VFailed v (err v (R - 1))) batch.
Proof.
  intros HR Hrun. unfold retry_batch.
  destruct R as [|R]; [lia |].
  rewrite seq_S, fold_left_app. simpl.
  rewrite (scan_batch_all_fail run err (S R) R batch _ Hrun).
  replace (S R - 1) with R by lia. rewrite Nat.eqb_refl. f_equal.
  - apply (fold_left_inv (fun results => results = acc)); [done |].
    intros results retry Hretry ->.
    apply elem_of_seq in Hretry as [_ Hretry]. simpl in Hretry.
    rewrite (scan_batch_all_fail run err (S R) retry batch _ Hrun).
    destruct (Nat.eqb_spec retry (S R - 1)); [lia | done].
  - by rewrite Nat.sub_0_r.
Qed.

(** When every run of every video raises, each video file ends up in the
    results exactly once, in the order of the listing, as a failure entry
    that carries the exception of its last run; the earlier runs leave no
    entry. *)
Theorem failing_videos_are_each_reported_once
        (run : string → nat → res video_result) (err : string → nat → exn)
        (B R : nat) (files : list string) :
  0 < B → 0 < R →
  (∀ v k, run v k = Raise (err v k)) →
  results_of (process_all_videos_batch (Ok tt) run B R files)
  = map (fun v => VFailed v (err v (R - 1))) (List.filter is_video_file files).
Proof.
  intros HB HR Hrun. unfold process_all_videos_batch.
  destruct (Nat.eqb_spec B 0) as [| _]; [lia |].
  simpl. set (videos := List.filter is_video_file files).
  pose proof (batches_concat B videos HB) as Hcat. revert Hcat.
  generalize (batch_starts B (length videos)). intros starts Hcat.
  match goal with
  | |- (let (_, _) := fold_left ?f starts ?a in _) = _ =>
      assert (Hfold : ∀ results ps,
                fst (fold_left f starts (results, ps))
                = results ++ map (fun v => VFailed v (err v (R - 1)))
                                 (concat (map (fun i => take B (drop i videos)) starts)))
  end.
  { clear Hcat. induction starts as [|i starts IH]; intros results ps; simpl.
    - by rewrite app_nil_r.
    - rewrite IH, (retry_batch_all_fail run err R _ _ HR Hrun), map_app.
      by rewrite <- app_assoc. }
  specialize (Hfold [] []). rewrite Hcat in Hfold.
  destruct (fold_left _ _ _) as [results ps]. exact Hfold.
Qed.

Lemma failing_videos_are_each_reported_once_witness :
  results_of (process_all_videos_batch (Ok tt)
                (fun v k => Raise (v +:+ " lost " +:+ show_nat k))
                2 3 ["a.mp4"; "notes.txt"; "b.avi"; "c.mov"])
  = [VFailed "a.mp4" "a.mp4 lost 2"; VFailed "b.avi" "b.avi lost 2";
     VFailed "c.mov" "c.mov lost 2"].
Proof.
  rewrite (failing_videos_are_each_reported_once
             (fun v k => Raise (v +:+ " lost " +:+ show_nat k))
             (fun v k => v +:+ " lost " +:+ show_nat k) 2 3
             ["a.mp4"; "notes.txt"; "b.avi"; "c.mov"]
             ltac:(lia) ltac:(lia) ltac:(reflexivity)).
  reflexivity.
Defined.

End BatchMore.

(** ** The task history of the polling client *)
Module FrontendMore.
Import Frontend.

(** [save_task_history] keeps one entry per task. After saving, looking the
    task up gives the saved entry and every other task is found as before;
    the ids of the history stay in their order, and the id is added at the
    end only when the history did not have it. *)
Theorem saved_task_replaces_its_entry {A : Type} (task_id : string) (info : A)
        (history : list (string * A)) :
  find_task task_id (save_task_history (task_id, info) history) = Some info ∧
  (∀ other, other ≠ task_id →
            find_task other (save_task_history (task_id, info) history)
            = find_task other history) ∧
  map fst (save_task_history (task_id, info) history)
  = match find_task task_id history with
    | Some _ => map fst history
    | None => map fst history ++ [task_id]
    end.
Proof.
  induction history as [|task history (IHfind & IHother & IHids)]; simpl.
  - rewrite String.eqb_refl. split_and!; [done | | done].
    intros other Hother.
    by destruct (String.eqb_spec task_id other) as [<-|].
  - destruct (String.eqb_spec (fst task) task_id) as [Hid|Hid]; simpl.
    + rewrite String.eqb_refl. split_and!; [done | | by rewrite Hid].
      intros other Hother.
      destruct (String.eqb_spec task_id other) as [<-|]; [done |].
      destruct (String.eqb_spec (fst task) other) as [<-|]; done.
    + destruct (String.eqb_spec (fst task) task_id); [done |].
      split_and!; [done | |].
      * intros other Hother.
        destruct (String.eqb_spec (fst task) other); [done | by apply IHother].
      * rewrite IHids. by destruct (find_task task_id history).
Qed.

Lemma saved_task_replaces_its_entry_witness :
  find_task "t2" (save_task_history ("t1", 7%Z) [("t1", 1%Z); ("t2", 2%Z)])
  = Some 2%Z.
Proof.
  by rewrite (proj1 (proj2 (saved_task_replaces_its_entry
                              "t1" 7%Z [("t1", 1%Z); ("t2", 2%Z)]))
                    "t2" ltac:(done)).
Defined.

End FrontendMore.

(** ** The object store *)
Module StoreMore.
Import ObjectStore.

Lemma lstrip_slash_head (s : string) (c : Ascii.ascii) (rest : string) :
  lstrip_slash s = String c rest → c ≠ slash.
Proof.
  induction s as [|d s IH]; simpl; [done |].
  destruct (Ascii.eqb_spec d slash) as [->|Hd]; [exact IH |].
  by intros [= <- _].
Qed.

Lemma rstrip_slash_head (s : string) (c : Ascii.ascii) (rest : string) :
  rstrip_slash s = String c rest → ∃ rest', s = String c rest'.
Proof.
  destruct s as [|d s]; simpl; [done |].
  destruct (rstrip_slash s); [destruct (Ascii.eqb d slash) |];
    intros [= <- _]; eauto.
Qed.

Lemma strip_slash_head (s : string) (c : Ascii.ascii) (rest : string) :
  strip_slash s = String c rest → c ≠ slash.
Proof.
  unfold strip_slash. intros H.
  apply rstrip_slash_head in H as [rest' H].
  by apply lstrip_slash_head in H.
Qed.

Lemma lstrip_slash_fixed (s : string) :
  (∀ rest, s ≠ String slash rest) → lstrip_slash s = s.
Proof.
  destruct s as [|c s]; simpl; [done |]. intros H.
  destruct (Ascii.eqb_spec c slash) as [->|]; [by destruct (H s) | done].
Qed.

Lemma rstrip_slash_idemp (s : string) :
  rstrip_slash (rstrip_slash s) = rstrip_slash s.
Proof.
  induction s as [|c s IH]; simpl; [done |].
  destruct (rstrip_slash s) as [|d s'] eqn:Hs.
  - destruct (Ascii.eqb c slash) eqn:Hc; simpl; [done | by rewrite Hc].
  - simpl in *. by rewrite IH.
Qed.

Lemma strip_slash_idemp (s : string) : strip_slash (strip_slash s) = strip_slash s.
Proof.
  unfold strip_slash at 1. rewrite lstrip_slash_fixed.
  - unfold strip_slash. apply rstrip_slash_idemp.
  - intros rest H. by apply strip_slash_head in H.
Qed.

Lemma rstrip_slash_app (s : string) : rstrip_slash (s +:+ "/") = rstrip_slash s.
Proof.
  induction s as [|c s IH]; [done |].
  rewrite string_app_cons. simpl. by rewrite IH.
Qed.

Lemma strip_slash_app (s : string) : strip_slash (s +:+ "/") = strip_slash s.
Proof.
  unfold strip_slash. induction s as [|c s IH]; [done |].
  rewrite string_app_cons. simpl.
  destruct (Ascii.eqb c slash); [exact IH |].
  rewrite <- string_app_cons. apply rstrip_slash_app.
Qed.

(** [_get_full_path] does not mind slashes around the path it is given: a
    leading or a trailing slash, or a path already stripped, give the same
    object name, and no object name starts with a slash. *)
Theorem object_name_ignores_outer_slashes (s : store) (object_path : string) :
  get_full_path s (strip_slash object_path) = get_full_path s object_path ∧
  get_full_path s ("/" +:+ object_path) = get_full_path s object_path ∧
  get_full_path s (object_path +:+ "/") = get_full_path s object_path ∧
  ∀ rest, get_full_path s object_path ≠ String slash rest.
Proof.
  unfold get_full_path. split_and!.
  - by rewrite strip_slash_idemp.
  - done.
  - by rewrite strip_slash_app.
  - intros rest. destruct (String.eqb_spec (prefix_of s) "") as [_|Hp].
    + intros H. by apply strip_slash_head in H.
    + destruct (prefix_of s) as [|c p] eqn:Hprefix; [done |].
      rewrite string_app_cons. intros [= -> _].
      unfold prefix_of in Hprefix.
      destruct (raw_prefix s) as [raw|]; [| done].
      by apply strip_slash_head in Hprefix.
Qed.

(** [upload_video_and_get_url] reports a failure only when the local file
    is there and the store did not write it. For a file that is not there
    it reports success, with the public URL of an object that was never
    written, because the tuple [upload_file] returns for a missing file is
    truthy. *)
Theorem missing_file_upload_reports_success (s : store) (video_path : string)
        (object_path : option string) :
  (local_exists s video_path = false →
   ∃ name, upload_video_and_get_url s video_path object_path
           = Uploaded ("https://" +:+ endpoint s +:+ "/" +:+ bucket s +:+ "/" +:+
                       get_full_path s name)) ∧
  (∀ err, upload_video_and_get_url s video_path object_path = UploadFailed err →
          local_exists s video_path = true ∧
          ∃ name, fput_object s (get_full_path s name) video_path ≠ PutDone).
Proof.
  unfold upload_video_and_get_url, upload_file, get_public_url. split.
  - intros ->. simpl. eauto.
  - intros err. destruct (local_exists s video_path); simpl; [| done].
    intros H. split; [done |].
    match type of H with
    | context [fput_object s (get_full_path s ?p) video_path] => exists p
    end.
    by destruct (fput_object s _ video_path).
Qed.

Lemma missing_file_upload_reports_success_witness :
  ∃ name,
    upload_video_and_get_url Cases.store_unreachable "out/clip.mp4"
                             (Some "uuid0/slice_1.mp4")
    = Uploaded ("https://minio.local/videos/" +:+
                get_full_path Cases.store_unreachable name).
Proof.
  apply (proj1 (missing_file_upload_reports_success Cases.store_unreachable
                  "out/clip.mp4" (Some "uuid0/slice_1.mp4"))).
  reflexivity.
Defined.

End StoreMore.
